(** * GC tracing add-on: flight recorder and reachability index

    A shallow embedding of [flight-recorder.cpp], [flight-recorder.h] and
    [gc-tracing.cpp], and the properties of the bounded event log, of the
    reachability index, of the watch set and of the tracing session.

    Conventions of the embedding
    - A pointer ([jl_value_t*], [jl_gcframe_t*], ...) is its address, a [Z];
      [nullptr] is [0].
    - [uint64_t], [int64_t], [uint32_t] and [int] values are [Z], and every
      conversion or wrap-around of the source is written out with
      [to_uint64], [to_int64], [to_uint32], [to_int32].
    - A C string is a [string]; a [char] arena split in fixed-size slots is
      the list of the strings its slots hold.
    - [std::unordered_map] is a [gmap], [std::unordered_set] a [gset]; an
      [Object*] into the map is the key of the node it points to (nodes are
      never moved or erased while a pointer to them is alive).
    - What the code writes to [stdout] is a list of structured lines, and
      the [SIGTRAP] raised by [break_into_debugger] is an event of the same
      trace.
    - A function of the source that can fail to return (a loop over parent
      pointers, [std::exit], a failed [assert]) returns a [Res]. *)

From Stdlib Require Import ZArith String Ascii Lia.
From Stdlib Require Import DecimalString HexadecimalString.
From stdpp Require Import gmap strings list fin_maps.

Local Open Scope Z_scope.

(** ** Machine integers *)

Definition to_uint64 (z : Z) : Z := z mod 2 ^ 64.
Definition to_int64 (z : Z) : Z := (z + 2 ^ 63) mod 2 ^ 64 - 2 ^ 63.
Definition to_uint32 (z : Z) : Z := z mod 2 ^ 32.
Definition to_int32 (z : Z) : Z := (z + 2 ^ 31) mod 2 ^ 32 - 2 ^ 31.

(** ** Outcomes of a call *)

Inductive AbortReason :=
  | ExitFailure      (* std::exit(1) *)
  | AssertFailed     (* a failed assert *)
  | InvalidAccess.   (* a read through an invalid pointer or index *)

Inductive Res (A : Type) :=
  | Ok (a : A)
  | Abort (why : AbortReason)
  | OutOfFuel.
Arguments Ok {A} a.
Arguments Abort {A} why.
Arguments OutOfFuel {A}.

Definition res_bind {A B : Type} (m : Res A) (k : A → Res B) : Res B :=
  match m with
  | Ok a => k a
  | Abort why => Abort why
  | OutOfFuel => OutOfFuel
  end.

Notation "'let*' x ':=' m 'in' k" := (res_bind m (λ x, k))
  (at level 10, x name, m at level 100, k at level 200, only parsing).

(** ** flight-recorder.cpp *)

Module FlightRecorder.

(** [struct Entry] *)
Record Entry := {
  m_source : string;
  m_line : Z;
  m_function : string;
}.

(** [class FlightRecorder]. [m_array] has [m_capacity] entries; [m_buffer]
    has [m_capacity] slots of [m_message_sz] bytes, each holding a C
    string. *)
Record t := {
  m_end : Z;
  m_capacity : Z;
  m_is_full : bool;
  m_array : list Entry;
  m_buffer : list string;
  m_message_sz : Z;
}.

(** [sizeof(Entry)]: two pointers and a [uint64_t]. *)
Definition sizeof_Entry : Z := 24.

(** [calloc(n, size)]: fails when [n * size] is not representable; the
    embedding assumes the memory is there otherwise. *)
Definition calloc_ok (n size : Z) : bool := n * size <? 2 ^ 64.

Definition zero_entry : Entry :=
  {| m_source := ""; m_line := 0; m_function := "" |}.

(** [FlightRecorder::FlightRecorder]; [None] is [std::exit(1)]. The size
    of the arena, [capacity * message_sz], is computed in [uint64_t] and
    wraps around: the constructor returns also when the product does not
    fit in 64 bits, with an arena of [to_uint64 (capacity * message_sz)]
    bytes, which is smaller than the [capacity] slots of [message_sz]
    bytes that [insert_c_api] hands out. The embedding keeps the arena as
    [capacity] slots; they are the memory that the recorder owns exactly
    when [capacity * message_sz < 2 ^ 64], and the properties of the
    messages are stated under this condition. (A request of 0 bytes is
    taken to return a pointer, as glibc does.) *)
Definition ctor (capacity message_sz : Z) : option t :=
  if capacity =? 0 then None
  else if negb (calloc_ok capacity sizeof_Entry)
          || negb (calloc_ok (to_uint64 (capacity * message_sz)) 1) then None
  else Some {| m_end := 0; m_capacity := capacity; m_is_full := false;
               m_array := replicate (Z.to_nat capacity) zero_entry;
               m_buffer := replicate (Z.to_nat capacity) ""%string;
               m_message_sz := message_sz |}.

(** [FlightRecorder::insert_c_api]. The buffer returned,
    [m_buffer + m_end * m_message_sz], is the number of its slot; the
    second component is [*out_buffer_sz]. *)
Definition insert_c_api (source : string) (line : Z) (function : string)
    (fr : t) : (Z * Z) * t :=
  let slot := m_end fr in
  let array := <[Z.to_nat slot :=
                 {| m_source := source; m_line := line;
                    m_function := function |}]> (m_array fr) in
  let end1 := to_uint64 (slot + 1) in
  let wrap := end1 =? m_capacity fr in
  ((slot, m_message_sz fr),
   {| m_end := if wrap then 0 else end1;
      m_capacity := m_capacity fr;
      m_is_full := if wrap then true else m_is_full fr;
      m_array := array;
      m_buffer := m_buffer fr;
      m_message_sz := m_message_sz fr |}).

(** [snprintf(buffer, buffer_sz, ...)] into the slot [buffer]: at most
    [buffer_sz - 1] characters are stored, nothing when [buffer_sz] is 0. *)
Definition snprintf (buffer buffer_sz : Z) (text : string) (fr : t) : t :=
  if buffer_sz =? 0 then fr
  else {| m_end := m_end fr; m_capacity := m_capacity fr;
          m_is_full := m_is_full fr; m_array := m_array fr;
          m_buffer := <[Z.to_nat buffer :=
                        substring 0 (Z.to_nat (buffer_sz - 1)) text]>
                      (m_buffer fr);
          m_message_sz := m_message_sz fr |}.

(** [FlightRecorder::capacity] *)
Definition capacity (fr : t) : Z := m_capacity fr.

(** [FlightRecorder::size] *)
Definition size (fr : t) : Z :=
  if m_is_full fr then capacity fr else m_end fr.

(** [FlightRecorder::to_array_index]; [None] is [std::exit(1)]. *)
Definition to_array_index (fr : t) (index : Z) : option Z :=
  if (to_int64 (size fr) <=? index) || (index <? 0) then None
  else if negb (m_is_full fr) then Some (to_uint64 index)
  else if index <? to_int64 (to_uint64 (m_capacity fr - m_end fr))
       then Some (to_uint64 (m_end fr + index))
       else Some (to_uint64 (index - to_uint64 (m_capacity fr - m_end fr))).

(** A line of [FlightRecorder::dump]. [Header None] is
    "[FlightRecorder] empty", [Header (Some n)] is
    "[FlightRecorder] num entries: n", and [EntryLine j src l fn msg] is
    "[j][basename(src)::l, fn: fn] msg", the message and its leading
    space left out when [msg] is empty. *)
Inductive Line :=
  | Header (num_entries : option Z)
  | EntryLine (j : Z) (source : string) (line : Z) (function : string)
              (message : string).

(** One iteration of the loop of [dump]. *)
Definition dump_line (fr : t) (i j : Z) : Res Line :=
  match to_array_index fr (to_int64 i) with
  | None => Abort ExitFailure
  | Some k =>
      match m_array fr !! Z.to_nat k, m_buffer fr !! Z.to_nat k with
      | Some entry, Some message =>
          Ok (EntryLine j (m_source entry) (m_line entry)
                (m_function entry) message)
      | _, _ => Abort InvalidAccess
      end
  end.

(** The loop [for (i = ..., j = ...; i < N; i++, j--)] of [dump], [n]
    being the number [N - i] of iterations left. *)
Fixpoint dump_loop (fr : t) (n : nat) (i j : Z) : Res (list Line) :=
  match n with
  | O => Ok []
  | S n' =>
      let* l := dump_line fr i j in
      let* ls := dump_loop fr n' (to_uint64 (i + 1)) (to_uint64 (j - 1)) in
      Ok (l :: ls)
  end.

(** [FlightRecorder::dump] *)
Definition dump (max_num_entries : Z) (fr : t) : Res (list Line) :=
  let num_entries := Z.min (size fr) max_num_entries in
  let header := Header (if size fr =? 0 then None else Some num_entries) in
  let i := to_uint64 (size fr - num_entries) in
  let N := size fr in
  let j := to_uint64 (num_entries - 1) in
  let* ls := dump_loop fr (Z.to_nat (N - i)) i j in
  Ok (header :: ls).

(** The singleton of the C API and its switch. *)
Record Global := {
  g_flight_recorder : t;
  g_flight_recorder_enabled : bool;
}.

(** [flight_recorder_enable] *)
Definition flight_recorder_enable (value : bool) (g : Global) : Global :=
  {| g_flight_recorder := g_flight_recorder g;
     g_flight_recorder_enabled := value |}.

(** [flight_recorder_insert]: the result is
    [(return value, *out_buffer, *out_buffer_sz)], a null [*out_buffer]
    being [None]. *)
Definition flight_recorder_insert (source : string) (line : Z)
    (function : string) (g : Global) : (bool * option Z * Z) * Global :=
  if g_flight_recorder_enabled g then
    let '((buffer, buffer_sz), fr) :=
      insert_c_api source line function (g_flight_recorder g) in
    ((true, Some buffer, buffer_sz),
     {| g_flight_recorder := fr;
        g_flight_recorder_enabled := g_flight_recorder_enabled g |})
  else ((false, None, 0), g).

(** The macro [FR(...)] of flight-recorder.h, [text] being the string
    that the format and its arguments produce. *)
Definition FR (source : string) (line : Z) (function : string)
    (text : string) (g : Global) : Global :=
  let '((is_enabled, buffer, buffer_sz), g') :=
    flight_recorder_insert source line function g in
  match is_enabled, buffer with
  | true, Some b =>
      {| g_flight_recorder := snprintf b buffer_sz text (g_flight_recorder g');
         g_flight_recorder_enabled := g_flight_recorder_enabled g' |}
  | _, _ => g'
  end.

(** [flight_recorder_dump_n] *)
Definition flight_recorder_dump_n (n : Z) (g : Global) : Res (list Line) :=
  dump n (g_flight_recorder g).

(** [flight_recorder_dump]: the default bound is
    [std::numeric_limits<uint64_t>::max()]. *)
Definition flight_recorder_dump (g : Global) : Res (list Line) :=
  dump (2 ^ 64 - 1) (g_flight_recorder g).

(** [static FlightRecorder g_flight_recorder(2048)], with the default
    message size 512, and [g_flight_recorder_enabled = false]. *)
Definition initial : option Global :=
  fr ← ctor 2048 512;
  Some {| g_flight_recorder := fr; g_flight_recorder_enabled := false |}.

(** An insertion as the macro [FR] performs it on the recorder itself:
    [insert_c_api], then the message formatted into the buffer returned. *)
Definition log (ins : Entry * string) (fr : t) : t :=
  let '((buffer, buffer_sz), fr') :=
    insert_c_api (m_source ins.1) (m_line ins.1) (m_function ins.1) fr in
  snprintf buffer buffer_sz ins.2 fr'.

Definition log_all (l : list (Entry * string)) (fr : t) : t :=
  foldl (λ fr ins, log ins fr) fr l.

End FlightRecorder.

(** ** gc-tracing.cpp *)

Module GcTracing.
Import FlightRecorder.

(** [enum class ReferenceType] *)
Inductive ReferenceType :=
  | UNKNOWN | ROOT | MODULE_BINDING | TASK | FRAME | ARRAY | FIELD.

Global Instance ReferenceType_eq_dec : EqDecision ReferenceType.
Proof. solve_decision. Defined.

(** [class Object]; [m_parent] is the key in [g_index] of the node the
    pointer refers to, [None] for [nullptr]. *)
Record Object := {
  m_pointer : Z;
  m_parent : option Z;
  m_type_ref : ReferenceType;
  m_name : string;
  m_index : Z;
}.

(** [Object::Object], from a pointer *)
Definition Object_ctor (pointer : Z) : Object :=
  {| m_pointer := pointer; m_parent := None; m_type_ref := UNKNOWN;
     m_name := ""; m_index := 0 |}.

Definition set_m_parent (p : option Z) (o : Object) : Object :=
  {| m_pointer := m_pointer o; m_parent := p; m_type_ref := m_type_ref o;
     m_name := m_name o; m_index := m_index o |}.
Definition set_m_type_ref (r : ReferenceType) (o : Object) : Object :=
  {| m_pointer := m_pointer o; m_parent := m_parent o; m_type_ref := r;
     m_name := m_name o; m_index := m_index o |}.
Definition set_m_name (n : string) (o : Object) : Object :=
  {| m_pointer := m_pointer o; m_parent := m_parent o;
     m_type_ref := m_type_ref o; m_name := n; m_index := m_index o |}.
Definition set_m_index (i : Z) (o : Object) : Object :=
  {| m_pointer := m_pointer o; m_parent := m_parent o;
     m_type_ref := m_type_ref o; m_name := m_name o; m_index := i |}.

(** What [dump_ancestor_chain] prints before the first arrow. *)
Inductive ChainHead :=
  | HeadRoot                    (* <root> *)
  | HeadUnknown                 (* <unknown> *)
  | HeadParent (pointer : Z).   (* the parent's pointer and its type *)

(** The lines written to [stdout], and the trap. The text of a type
    ([jl_typeof], [jl_static_show]) that follows a pointer is implied by
    the pointer. *)
Inductive Out :=
  | OutFlightRecorder (l : Line)
  | OutCannotFindParent (pointer : Z)
      (* [ERROR] Cannot find the parent for <pointer> *)
  | Trap
      (* int $3 of break_into_debugger: SIGTRAP. What follows a Trap in a
         trace is what the process does once a debugger resumes it; left
         alone, the process ends at the trap. *)
  | OutTargetFound (pointer : Z)
      (* [target_found] pointer: <pointer> *)
  | OutChain (i : Z) (head : ChainHead) (name : string)
             (position : option Z) (pointer : Z)
      (* [i] head -> name (field position: p) -> pointer ::type; the name
         is left out when empty, the position when None *)
  | OutBlank
  | OutAddPtr (pointer : Z)
  | OutNoTargets
  | OutChecking (pointers : list Z)
  | OutRunning
  | OutExecuted
      (* [jl_gc_trace] GC executed in ... secs; the duration is not modelled *)
  | OutNotDetected (pointers : list Z)
  | OutAllDetected
  | OutDone
  | OutObjectEdgeDebug (from to slot field_index0 : Z) (field_name : string)
      (* the lines of the DEBUG ONLY block of gc_record_object_edge *)
  | OutBreakIntoDebugger.

(** The globals of gc-tracing.cpp and of the C API of the flight
    recorder, and what was written so far. *)
Record State := {
  g_targets : gset Z;
  g_recording : bool;
  g_index : gmap Z Object;
  recorder : Global;
  trace : list Out;
}.

Definition set_targets (f : gset Z → gset Z) (s : State) : State :=
  {| g_targets := f (g_targets s); g_recording := g_recording s;
     g_index := g_index s; recorder := recorder s; trace := trace s |}.
Definition set_recording (b : bool) (s : State) : State :=
  {| g_targets := g_targets s; g_recording := b; g_index := g_index s;
     recorder := recorder s; trace := trace s |}.
Definition set_index (f : gmap Z Object → gmap Z Object) (s : State) : State :=
  {| g_targets := g_targets s; g_recording := g_recording s;
     g_index := f (g_index s); recorder := recorder s; trace := trace s |}.
Definition set_recorder (f : Global → Global) (s : State) : State :=
  {| g_targets := g_targets s; g_recording := g_recording s;
     g_index := g_index s; recorder := f (recorder s); trace := trace s |}.
(** [cout << ...] *)
Definition emit (ls : list Out) (s : State) : State :=
  {| g_targets := g_targets s; g_recording := g_recording s;
     g_index := g_index s; recorder := recorder s; trace := trace s ++ ls |}.

(** [break_into_debugger]: [int $3] raises [SIGTRAP]. Left alone, the
    process ends there; under a debugger it stops and can be resumed. The
    embedding records the event [Trap] and follows the process as the
    debugger resumes it: a call that returns with a [Trap] in its output
    is a call that returns once resumed. *)
Definition break_into_debugger (s : State) : State := emit [Trap] s.

(** [__FILE__] in gc-tracing.cpp; [dump] prints its basename. *)
Definition FILE : string := "gc-tracing.cpp".

(** printf conversions: [%p] (glibc) and [%d]. *)
Definition fmt_p (p : Z) : string :=
  if p =? 0 then "(nil)"
  else "0x" +:+ HexadecimalString.NilZero.string_of_uint
                  (N.to_hex_uint (Z.to_N p)).
Definition fmt_d (z : Z) : string :=
  DecimalString.NilZero.string_of_int (Z.to_int z).

(** [FR(...)] in a function of gc-tracing.cpp. *)
Definition FR_ (line : Z) (function text : string) (s : State) : State :=
  set_recorder (FR FILE line function text) s.

(** A method of [Object] called on the node of key [this]. *)
Definition modify (this : Z) (f : Object → Object) (s : State) : State :=
  set_index (alter f this) s.

(** [g_index.emplace(key, key)]: whether the node was inserted. *)
Definition emplace (key : Z) (s : State) : bool * State :=
  match g_index s !! key with
  | Some _ => (false, s)
  | None => (true, set_index (insert key (Object_ctor key)) s)
  end.

(** The macro [STOP_AND_DEBUG], in a method called on the node [this]. *)
Definition STOP_AND_DEBUG (this : Z) (s : State) : Res State :=
  let* ls := flight_recorder_dump_n 128 (recorder s) in
  let s := emit (OutFlightRecorder <$> ls) s in
  match g_index s !! this with
  | None => Abort InvalidAccess
  | Some o =>
      Ok (break_into_debugger (emit [OutCannotFindParent (m_pointer o)] s))
  end.

(** [g_index.find(from)] and the two branches that follow it in every
    [Object::set_parent]. *)
Definition find_parent (this from : Z) (s : State) : Res State :=
  match g_index s !! from with
  | None => STOP_AND_DEBUG this s
  | Some _ => Ok (modify this (set_m_parent (Some from)) s)
  end.

(** [Object::set_root] *)
Definition set_root (this : Z) (name : string) (s : State) : State :=
  modify this (set_m_name name)
    (modify this (set_m_parent None)
       (modify this (set_m_type_ref ROOT) s)).

(** [Object::set_parent] from a module and a name *)
Definition set_parent_module (this module : Z) (name : string) (s : State)
    : Res State :=
  let s := modify this (set_m_type_ref MODULE_BINDING) s in
  let s := modify this (set_m_name name) s in
  find_parent this module s.

(** [Object::set_parent] from a task *)
Definition set_parent_task (this task : Z) (s : State) : Res State :=
  let s := modify this (set_m_type_ref TASK) s in
  find_parent this task s.

(** [Object::set_parent] from a frame *)
Definition set_parent_frame (this frame : Z) (s : State) : Res State :=
  let s := modify this (set_m_type_ref FRAME) s in
  find_parent this frame s.

(** [Object::set_parent] from an array and an index *)
Definition set_parent_array (this array index : Z) (s : State) : Res State :=
  let s := modify this (set_m_type_ref ARRAY) s in
  let* s := find_parent this array s in
  Ok (modify this (set_m_index index) s).

(** [Object::set_parent] from an object, a field index and a field name *)
Definition set_parent_field (this obj field_index : Z)
    (field_name : string) (s : State) : Res State :=
  let s := modify this (set_m_type_ref FIELD) s in
  let* s := find_parent this obj s in
  let s := modify this (set_m_index field_index) s in
  Ok (modify this (set_m_name field_name) s).

(** One line of [Object::dump_ancestor_chain], and the node the walk
    goes to next. *)
Definition chain_step (index : gmap Z Object) (i : Z) (current : Object)
    : Res (Out * option Object) :=
  let position :=
    if decide (m_type_ref current = ARRAY ∨ m_type_ref current = FIELD)
    then Some (m_index current) else None in
  let line head :=
    OutChain i head (m_name current) position (m_pointer current) in
  if decide (m_type_ref current = ROOT) then Ok (line HeadRoot, None)
  else match m_parent current with
       | None => Ok (line HeadUnknown, None)
       | Some p =>
           match index !! p with
           | None => Abort InvalidAccess
           | Some parent =>
               Ok (line (HeadParent (m_pointer parent)), Some parent)
           end
       end.

(** [Object::dump_ancestor_chain]: the do-while loop, [current] and [i]
    being its variables. *)
Fixpoint dump_ancestor_chain_from (fuel : nat) (index : gmap Z Object)
    (i : Z) (current : Object) : Res (list Out) :=
  match fuel with
  | O => OutOfFuel
  | S fuel' =>
      let* step := chain_step index i current in
      match step.2 with
      | None => Ok [step.1]
      | Some parent =>
          let* ls := dump_ancestor_chain_from fuel' index (i + 1) parent in
          Ok (step.1 :: ls)
      end
  end.

Definition dump_ancestor_chain (fuel : nat) (index : gmap Z Object)
    (obj : Object) : Res (list Out) :=
  dump_ancestor_chain_from fuel index 0 obj.

(** [target_found] *)
Definition target_found (fuel : nat) (candidate : Z) (s : State)
    : Res State :=
  if decide (candidate ∈ g_targets s) then
    match g_index s !! candidate with
    | None => Abort InvalidAccess
    | Some item =>
        let s := emit [OutTargetFound (m_pointer item)] s in
        let* ls := dump_ancestor_chain fuel (g_index s) item in
        let s := emit (ls ++ [OutBlank]) s in
        Ok (set_targets (λ t, t ∖ {[candidate]}) s)
    end
  else Ok s.

(** [jl_gc_addptr] *)
Definition jl_gc_addptr (pointer : Z) (s : State) : State :=
  set_targets (λ t, {[pointer]} ∪ t) (emit [OutAddPtr pointer] s).

(** [jl_gc_is_tracing_enabled] *)
Definition jl_gc_is_tracing_enabled (s : State) : bool := g_recording s.

(** [gc_record_root] *)
Definition gc_record_root (fuel : nat) (root : Z) (name : string)
    (s : State) : Res State :=
  let s := FR_ 194 "gc_record_root"
             ("root: " +:+ fmt_p root +:+ ", name: " +:+ name) s in
  if negb (g_recording s) || (root =? 0) then Ok s
  else
    let '(inserted, s) := emplace root s in
    if negb inserted then Ok s
    else
      let s := FR_ 199 "gc_record_root" "root inserted" s in
      let s := set_root root name s in
      target_found fuel root s.

(** [gc_record_frame_to_object_edge] *)
Definition gc_record_frame_to_object_edge (fuel : nat) (from to : Z)
    (s : State) : Res State :=
  let s := FR_ 206 "gc_record_frame_to_object_edge"
             ("from: " +:+ fmt_p from +:+ ", to: " +:+ fmt_p to) s in
  if negb (g_recording s) then Ok s
  else
    let '(inserted, s) := emplace to s in
    if negb inserted then Ok s
    else
      let s := FR_ 211 "gc_record_frame_to_object_edge" "item inserted" s in
      let* s := set_parent_frame to from s in
      target_found fuel to s.

(** [gc_record_task_to_frame_edge] *)
Definition gc_record_task_to_frame_edge (from to : Z) (s : State)
    : Res State :=
  let s := FR_ 218 "gc_record_task_to_frame_edge"
             ("task: " +:+ fmt_p from +:+ ", frame: " +:+ fmt_p to) s in
  if negb (g_recording s) then Ok s
  else
    let '(inserted, s) := emplace to s in
    if negb inserted then Ok s
    else
      let s := FR_ 222 "gc_record_task_to_frame_edge" "item inserted" s in
      set_parent_task to from s.

(** [gc_record_frame_to_frame_edge] *)
Definition gc_record_frame_to_frame_edge (from to : Z) (s : State)
    : Res State :=
  let s := FR_ 227 "gc_record_frame_to_frame_edge"
             ("from: " +:+ fmt_p from +:+ ", to: " +:+ fmt_p to) s in
  if negb (g_recording s) then Ok s
  else
    let '(inserted, s) := emplace to s in
    if negb inserted then Ok s
    else
      let s := FR_ 231 "gc_record_frame_to_frame_edge" "item inserted" s in
      set_parent_frame to from s.

(** [gc_record_array_edge] *)
Definition gc_record_array_edge (fuel : nat) (from to index : Z)
    (s : State) : Res State :=
  let s := FR_ 236 "gc_record_array_edge"
             ("from: " +:+ fmt_p from +:+ ", to: " +:+ fmt_p to
              +:+ ", index: " +:+ fmt_d (to_int32 index)) s in
  if negb (g_recording s) then Ok s
  else
    let '(inserted, s) := emplace to s in
    if negb inserted then Ok s
    else
      let s := FR_ 240 "gc_record_array_edge" "item inserted" s in
      let* s := set_parent_array to from index s in
      target_found fuel to s.

(** [gc_record_module_edge] *)
Definition gc_record_module_edge (fuel : nat) (from to : Z) (name : string)
    (s : State) : Res State :=
  let s := FR_ 247 "gc_record_module_edge"
             ("module: " +:+ fmt_p from +:+ ", value: " +:+ fmt_p to
              +:+ ", name: " +:+ name) s in
  if negb (g_recording s) then Ok s
  else
    let '(inserted, s) := emplace to s in
    if negb inserted then Ok s
    else
      let s := FR_ 251 "gc_record_module_edge" "item inserted" s in
      let* s := set_parent_module to from name s in
      target_found fuel to s.

(** [gc_record_module_edge_globalref]: the name is formatted into a
    buffer of 512 bytes. *)
Definition gc_record_module_edge_globalref (fuel : nat) (from to : Z)
    (name : string) (s : State) : Res State :=
  if negb (g_recording s) || (to =? 0) then Ok s
  else
    let buffer := substring 0 511 (name +:+ "_globalref") in
    gc_record_module_edge fuel from to buffer s.

(** [gc_record_internal_edge] *)
Definition gc_record_internal_edge (from to : Z) (s : State) : Res State :=
  let s := FR_ 430 "gc_record_internal_edge"
             ("from: " +:+ fmt_p from +:+ ", to: " +:+ fmt_p to) s in
  if negb (g_recording s) then Ok s else Ok s.

(** [gc_record_hidden_edge] *)
Definition gc_record_hidden_edge (from bytes : Z) (s : State) : Res State :=
  let s := FR_ 437 "gc_record_hidden_edge"
             ("from: " +:+ fmt_p from +:+ ", bytes: "
              +:+ fmt_d (to_int32 bytes)) s in
  if negb (g_recording s) then Ok s else Ok s.

(** What gc-tracing.cpp takes from the runtime of Julia (julia.h, gc.h):
    the layout of the types and the memory of the objects. A datatype is
    the address of its [jl_datatype_t]. *)
Record Host := {
  jl_typeof : Z → Z;
  jl_data_ptr : Z → Z;
  jl_datatype_nfields : Z → Z;
  jl_field_offset : Z → Z → Z;
  jl_field_isptr : Z → Z → bool;
  jl_field_type : Z → Z → Z;
  jl_stored_inline : Z → bool;
  jl_is_tuple_type : Z → bool;
  jl_is_namedtuple_type : Z → bool;
  (* the name of the n-th field of a named tuple type, read from its first
     type parameter; None when that parameter is not a tuple *)
  namedtuple_field_name : Z → Z → option string;
  (* jl_symbol_name (jl_svecref (jl_field_names dt) n) *)
  field_name : Z → Z → string;
  (* the pointer stored at an address *)
  load_pointer : Z → Z;
}.

(** The loop [while (jl_field_offset(dt, field_index) > byte_offset)
    field_index--] of [gc_record_object_edge], from [field_index = n - 1];
    [None] when it runs below the first field, where
    [assert(field_index >= 0)] fails. *)
Fixpoint scan_fields (h : Host) (dt byte_offset : Z) (n : nat) : option Z :=
  match n with
  | O => None
  | S n' =>
      if byte_offset <? jl_field_offset h dt (Z.of_nat n')
      then scan_fields h dt byte_offset n'
      else Some (Z.of_nat n')
  end.

(** What one iteration of the do-while loop of [gc_record_object_edge]
    appends to [ss]. *)
Definition append_field_name (h : Host) (dt field_index : Z) (ss : string)
    : string :=
  if jl_is_tuple_type h dt then ss +:+ "[" +:+ fmt_d field_index +:+ "]"
  else
    let sym_field_name :=
      if jl_is_namedtuple_type h dt then namedtuple_field_name h dt field_index
      else Some (field_name h dt field_index) in
    let ss := if (0 <? Z.of_nat (String.length ss)) then ss +:+ "." else ss in
    match sym_field_name with
    | Some name => ss +:+ name
    | None => ss +:+ "<unknown field name>"
    end.

(** The do-while loop of [gc_record_object_edge]; the result is
    [(field_index0, ss.str(), error)]. *)
Fixpoint resolve_field (h : Host) (fuel : nat) (to data byte_offset dt
    num_levels field_index0 : Z) (ss : string) : Res (Z * string * bool) :=
  match fuel with
  | O => OutOfFuel
  | S fuel' =>
      let num_fields := jl_datatype_nfields h dt in
      match scan_fields h dt byte_offset (Z.to_nat num_fields) with
      | None => Abort AssertFailed
      | Some field_index =>
          let field_index0 :=
            if num_levels =? 0 then field_index else field_index0 in
          let ss := append_field_name h dt field_index ss in
          if jl_field_isptr h dt field_index then
            let pointer :=
              load_pointer h (data + jl_field_offset h dt field_index) in
            Ok (field_index0, ss, negb (pointer =? to))
          else
            let fdt := jl_field_type h dt field_index in
            if jl_stored_inline h fdt then
              resolve_field h fuel' to
                (data + jl_field_offset h dt field_index)
                (to_uint32 (byte_offset - jl_field_offset h dt field_index))
                fdt (to_uint32 (num_levels + 1)) field_index0 ss
            else Ok (field_index0, ss, true)
      end
  end.

(** [gc_record_object_edge] *)
Definition gc_record_object_edge (h : Host) (fuel : nat) (from to slot : Z)
    (s : State) : Res State :=
  let s := FR_ 266 "gc_record_object_edge"
             ("from: " +:+ fmt_p from +:+ ", to: " +:+ fmt_p to
              +:+ ", slot: " +:+ fmt_p slot) s in
  if negb (g_recording s) then Ok s
  else
    let '(inserted, s) := emplace to s in
    if negb inserted then Ok s
    else
      let s := FR_ 270 "gc_record_object_edge" "item inserted" s in
      let data := jl_data_ptr h from in
      let byte_offset := to_uint32 (slot - data) in
      let dt := jl_typeof h from in
      let* r := resolve_field h fuel to data byte_offset dt 0 (-1) "" in
      let '(field_index0, field_name, error) := r in
      let s :=
        if error : bool then
          break_into_debugger
            (emit [OutObjectEdgeDebug from to slot field_index0 field_name;
                   OutBreakIntoDebugger] s)
        else s in
      let* s := set_parent_field to from (to_uint64 field_index0)
                  field_name s in
      target_found fuel to s.

(** A call that the collector makes into gc-tracing.cpp. *)
Inductive Callback :=
  | RecordRoot (root : Z) (name : string)
  | RecordFrameToObject (from to : Z)
  | RecordTaskToFrame (from to : Z)
  | RecordFrameToFrame (from to : Z)
  | RecordArray (from to index : Z)
  | RecordModule (from to : Z) (name : string)
  | RecordModuleGlobalref (from to : Z) (name : string)
  | RecordObject (from to slot : Z)
  | RecordInternal (from to : Z)
  | RecordHidden (from bytes : Z).

Definition callback (h : Host) (fuel : nat) (cb : Callback) (s : State)
    : Res State :=
  match cb with
  | RecordRoot root name => gc_record_root fuel root name s
  | RecordFrameToObject from to => gc_record_frame_to_object_edge fuel from to s
  | RecordTaskToFrame from to => gc_record_task_to_frame_edge from to s
  | RecordFrameToFrame from to => gc_record_frame_to_frame_edge from to s
  | RecordArray from to index => gc_record_array_edge fuel from to index s
  | RecordModule from to name => gc_record_module_edge fuel from to name s
  | RecordModuleGlobalref from to name =>
      gc_record_module_edge_globalref fuel from to name s
  | RecordObject from to slot => gc_record_object_edge h fuel from to slot s
  | RecordInternal from to => gc_record_internal_edge from to s
  | RecordHidden from bytes => gc_record_hidden_edge from bytes s
  end.

(** The identity an edge report is about (its [to], or the root). *)
Definition reported (cb : Callback) : option Z :=
  match cb with
  | RecordRoot root _ => Some root
  | RecordFrameToObject _ to | RecordTaskToFrame _ to
  | RecordFrameToFrame _ to | RecordArray _ to _ | RecordModule _ to _
  | RecordModuleGlobalref _ to _ | RecordObject _ to _ => Some to
  | RecordInternal _ _ | RecordHidden _ _ => None
  end.

(** [jl_gc_collect], seen from gc-tracing.cpp: the collector is the
    sequence of the calls it makes during one collection. *)
Fixpoint jl_gc_collect (h : Host) (fuel : nat) (calls : list Callback)
    (s : State) : Res State :=
  match calls with
  | [] => Ok s
  | cb :: calls' =>
      let* s := callback h fuel cb s in
      jl_gc_collect h fuel calls' s
  end.

(** The loop [while (gc_num.pause < 2) jl_gc_collect(JL_GC_AUTO)]: [autos]
    lists the collections that it runs. *)
Fixpoint warm_up (h : Host) (fuel : nat) (autos : list (list Callback))
    (s : State) : Res State :=
  match autos with
  | [] => Ok s
  | calls :: autos' =>
      let* s := jl_gc_collect h fuel calls s in
      warm_up h fuel autos' s
  end.

(** [jl_gc_trace]. [trace_reset] is its part from the listing of the
    targets to [g_index.clear()] ([g_index.reserve] changes no content and
    is left out), [trace_start] the part that sets the two
    flags before the collection that is traced, and [trace_end] what follows
    that collection. The order in which the targets are listed is the one
    of the iteration of [g_targets], which C++ leaves unspecified. *)
Definition trace_reset (s : State) : State :=
  let s := emit [OutChecking (elements (g_targets s))] s in
  set_index (λ _, ∅) s.

Definition trace_start (s : State) : State :=
  let s := set_recording true s in
  let s := set_recorder (flight_recorder_enable true) s in
  emit [OutRunning] s.

Definition trace_end (s : State) : State :=
  let s := emit [OutExecuted] s in
  let s :=
    if decide (g_targets s = ∅) then emit [OutAllDetected] s
    else emit [OutNotDetected (elements (g_targets s))] s in
  let s := set_targets (λ _, ∅) s in
  let s := set_index (λ _, ∅) s in
  let s := set_recording false s in
  let s := set_recorder (flight_recorder_enable false) s in
  emit [OutDone] s.

Definition jl_gc_trace (h : Host) (fuel : nat) (autos : list (list Callback))
    (full : list Callback) (s : State) : Res State :=
  if decide (g_targets s = ∅) then Ok (emit [OutNoTargets] s)
  else
    let s := trace_reset s in
    let* s := warm_up h fuel autos s in
    let s := trace_start s in
    let* s := jl_gc_collect h fuel full s in
    Ok (trace_end s).

(** The state of the process before any call. *)
Definition initial_state : option State :=
  g ← initial;
  Some {| g_targets := ∅; g_recording := false; g_index := ∅;
          recorder := g; trace := [] |}.

End GcTracing.

(** * Specification-side definitions *)

Module FlightRecorderSpec.
Import FlightRecorder.

(** What a slot keeps of an insertion: the message is cut to the size of
    the slot. *)
Definition stored (message_sz : Z) (ins : Entry * string) : Entry * string :=
  (ins.1, substring 0 (Z.to_nat (message_sz - 1)) ins.2).

Definition line_of (j : Z) (ins : Entry * string) : Line :=
  EntryLine j (m_source ins.1) (m_line ins.1) (m_function ins.1) ins.2.

(** The lines of a list of insertions, oldest first, numbered downwards
    from [j]. *)
Fixpoint lines_of (j : Z) (l : list (Entry * string)) : list Line :=
  match l with
  | [] => []
  | ins :: l' => line_of j ins :: lines_of (j - 1) l'
  end.

(** The last [n] elements of a list. *)
Definition last_n {A : Type} (n : Z) (l : list A) : list A :=
  drop (Z.to_nat (Z.of_nat (length l) - n)) l.

(** The cursor and the flag of [fr], of capacity [C], after [N]
    insertions. *)
Definition follows (C N : Z) (fr : t) : Prop :=
  m_capacity fr = C ∧ m_end fr = N mod C ∧ m_is_full fr = (C <=? N).

(** The recorder [fr] of capacity [C] holds the history [l] of insertions:
    the cursor and the flag follow the number of insertions, and the slot
    [n mod C] holds the insertion number [n] for each of the last [C]. *)
Definition holds (C message_sz : Z) (l : list (Entry * string)) (fr : t)
    : Prop :=
  let N := Z.of_nat (length l) in
  follows C N fr ∧ m_message_sz fr = message_sz
  ∧ length (m_array fr) = Z.to_nat C ∧ length (m_buffer fr) = Z.to_nat C
  ∧ ∀ (n : nat) (ins : Entry * string),
      N - C ≤ Z.of_nat n → l !! n = Some ins →
      m_array fr !! Z.to_nat (Z.of_nat n mod C) = Some ins.1
      ∧ m_buffer fr !! Z.to_nat (Z.of_nat n mod C)
        = Some (stored message_sz ins).2.

(** The arrays of the recorder are as its constructor allocates them and
    its cursor is within them. *)
Definition well_formed (fr : t) : Prop :=
  0 ≤ m_end fr < m_capacity fr ∧ m_capacity fr < 2 ^ 63
  ∧ length (m_array fr) = Z.to_nat (m_capacity fr)
  ∧ length (m_buffer fr) = Z.to_nat (m_capacity fr).

(** Recorders and insertions used in the examples. *)
Definition example_full : t :=
  {| m_end := 3; m_capacity := 4; m_is_full := true;
     m_array := replicate 4 zero_entry; m_buffer := replicate 4 ""%string;
     m_message_sz := 16 |}.

Definition entry (n : Z) : Entry * string :=
  ({| m_source := "src/gc.c"; m_line := n; m_function := "mark" |},
   "t=" +:+ GcTracing.fmt_d n).

Definition example_fresh : t :=
  {| m_end := 0; m_capacity := 3; m_is_full := false;
     m_array := replicate 3 zero_entry; m_buffer := replicate 3 ""%string;
     m_message_sz := 16 |}.

Definition five : list (Entry * string) :=
  [entry 1; entry 2; entry 3; entry 4; entry 5].

(** A sequence of uses of the macro [FR], each given as the entry and the
    text that the use would log. *)
Definition FR_all (calls : list (Entry * string)) (g : Global) : Global :=
  foldl (λ g c, FR (m_source c.1) (m_line c.1) (m_function c.1) c.2 g)
    g calls.

End FlightRecorderSpec.

Module GcTracingSpec.
Import FlightRecorder FlightRecorderSpec GcTracing.

(** The walk of [dump_ancestor_chain] from a node ends after [n] more
    nodes: it reaches a node of kind [ROOT], or a node without parent. *)
Inductive ends (index : gmap Z Object) : Object → nat → Prop :=
  | ends_root o :
      m_type_ref o = ROOT → ends index o 0
  | ends_none o :
      m_type_ref o ≠ ROOT → m_parent o = None → ends index o 0
  | ends_step o p parent n :
      m_type_ref o ≠ ROOT → m_parent o = Some p →
      index !! p = Some parent → ends index parent n →
      ends index o (S n).

(** The line that [dump_ancestor_chain] prints for a node. *)
Definition chain_line (i : Z) (head : ChainHead) (o : Object) : Out :=
  OutChain i head (m_name o)
    (if decide (m_type_ref o = ARRAY ∨ m_type_ref o = FIELD)
     then Some (m_index o) else None)
    (m_pointer o).

(** The edge reports after which the source calls [target_found]. *)
Definition checks_target (cb : Callback) : bool :=
  match cb with
  | RecordRoot _ _ | RecordFrameToObject _ _ | RecordArray _ _ _
  | RecordModule _ _ _ | RecordModuleGlobalref _ _ _
  | RecordObject _ _ _ => true
  | _ => false
  end.

(** The [from] of an edge report; a root has none. *)
Definition edge_from (cb : Callback) : option Z :=
  match cb with
  | RecordFrameToObject from _ | RecordTaskToFrame from _
  | RecordFrameToFrame from _ | RecordArray from _ _ | RecordModule from _ _
  | RecordModuleGlobalref from _ _ | RecordObject from _ _
  | RecordInternal from _ | RecordHidden from _ => Some from
  | RecordRoot _ _ => None
  end.

(** A report that the source drops for its null pointer. *)
Definition null_report (cb : Callback) : bool :=
  match cb with
  | RecordRoot root _ => root =? 0
  | RecordModuleGlobalref _ to _ => to =? 0
  | _ => false
  end.

(** What the do-while loop of [gc_record_object_edge] computes for a field
    edge; the other reports have nothing to resolve. *)
Definition resolution (h : Host) (fuel : nat) (cb : Callback)
    : Res (Z * string * bool) :=
  match cb with
  | RecordObject from to slot =>
      resolve_field h fuel to (jl_data_ptr h from)
        (to_uint32 (slot - jl_data_ptr h from)) (jl_typeof h from) 0 (-1) ""
  | _ => Ok (0, ""%string, false)
  end.

(** The parent that a new node gets: [g_index.find(from)] runs after the
    node of [to] was emplaced, so that [from] is found when it was in the
    index before, and also when it is [to] itself. *)
Definition parent_of (cb : Callback) (to : Z) (index : gmap Z Object)
    : option Z :=
  match edge_from cb with
  | Some from =>
      if decide (from = to ∨ is_Some (index !! from)) then Some from else None
  | None => None
  end.

(** Whether the lookup of the parent fails. *)
Definition parent_missing (cb : Callback) (to : Z) (index : gmap Z Object)
    : bool :=
  match edge_from cb with
  | Some from => bool_decide (¬ (from = to ∨ is_Some (index !! from)))
  | None => false
  end.

(** The node that a report creates, [r] being the [resolution] of the
    report and [parent] the outcome of the lookup of its [from]. *)
Definition new_node (cb : Callback) (r : Z * string * bool)
    (parent : option Z) : Object :=
  match cb with
  | RecordRoot root name =>
      {| m_pointer := root; m_parent := None; m_type_ref := ROOT;
         m_name := name; m_index := 0 |}
  | RecordFrameToObject _ to | RecordFrameToFrame _ to =>
      {| m_pointer := to; m_parent := parent; m_type_ref := FRAME;
         m_name := ""; m_index := 0 |}
  | RecordTaskToFrame _ to =>
      {| m_pointer := to; m_parent := parent; m_type_ref := TASK;
         m_name := ""; m_index := 0 |}
  | RecordArray _ to index =>
      {| m_pointer := to; m_parent := parent; m_type_ref := ARRAY;
         m_name := ""; m_index := index |}
  | RecordModule _ to name =>
      {| m_pointer := to; m_parent := parent; m_type_ref := MODULE_BINDING;
         m_name := name; m_index := 0 |}
  | RecordModuleGlobalref _ to name =>
      {| m_pointer := to; m_parent := parent; m_type_ref := MODULE_BINDING;
         m_name := substring 0 511 (name +:+ "_globalref"); m_index := 0 |}
  | RecordObject _ to _ =>
      {| m_pointer := to; m_parent := parent; m_type_ref := FIELD;
         m_name := r.1.2; m_index := to_uint64 r.1.1 |}
  | RecordInternal _ to => Object_ctor to
  | RecordHidden from _ => Object_ctor from
  end.

(** The lines of the DEBUG ONLY block of [gc_record_object_edge], printed
    when the resolution ends in error, and the trap that follows them. *)
Definition debug_lines (cb : Callback) (r : Z * string * bool) : list Out :=
  match cb with
  | RecordObject from to slot =>
      if r.2 then [OutObjectEdgeDebug from to slot r.1.1 r.1.2;
                   OutBreakIntoDebugger; Trap]
      else []
  | _ => []
  end.

(** What [STOP_AND_DEBUG] prints for the node [to], and its trap, [ls]
    being the lines of the dump of the flight recorder. *)
Definition stop_lines (to : Z) (ls : list Line) : list Out :=
  (OutFlightRecorder <$> ls) ++ [OutCannotFindParent to; Trap].

(** The flight recorder of the C API is well formed. *)
Definition recorder_ok (g : Global) : Prop :=
  well_formed (g_flight_recorder g).

(** The state [s1] that a report of the new identity [to] reaches from [s]
    before the watch set is consulted: the node is in the index, the
    diagnostics are printed, [ls] being the lines that a dump of the
    flight recorder gives then. *)
Definition created (cb : Callback) (to : Z) (r : Z * string * bool)
    (s s1 : State) (ls : list Line) : Prop :=
  flight_recorder_dump_n 128 (recorder s1) = Ok ls
  ∧ g_index s1
    = <[to := new_node cb r (parent_of cb to (g_index s))]> (g_index s)
  ∧ g_targets s1 = g_targets s ∧ g_recording s1 = true
  ∧ recorder_ok (recorder s1)
  ∧ g_flight_recorder_enabled (recorder s1)
    = g_flight_recorder_enabled (recorder s)
  ∧ trace s1
    = trace s ++ debug_lines cb r
      ++ (if parent_missing cb to (g_index s) then stop_lines to ls else []).

(** The state [s'] in which a report of the new identity [to] returns:
    [s'] has the node, the diagnostics are printed and, when the report
    consults the watch set and [to] is watched, the target is reported
    with its chain and leaves the watch set. *)
Definition reported_as (fuel : nat) (cb : Callback) (to : Z)
    (r : Z * string * bool) (ls : list Line) (chain : list Out)
    (s s' : State) : Prop :=
  let node := new_node cb r (parent_of cb to (g_index s)) in
  let diag := debug_lines cb r
              ++ (if parent_missing cb to (g_index s) then stop_lines to ls
                  else []) in
  let found := checks_target cb && bool_decide (to ∈ g_targets s) in
  g_index s' = <[to := node]> (g_index s)
  ∧ flight_recorder_dump_n 128 (recorder s') = Ok ls
  ∧ g_recording s' = true
  ∧ recorder_ok (recorder s')
  ∧ g_flight_recorder_enabled (recorder s')
    = g_flight_recorder_enabled (recorder s)
  ∧ (found = true → dump_ancestor_chain fuel (g_index s') node = Ok chain)
  ∧ trace s'
    = trace s ++ diag
      ++ (if found then [OutTargetFound to] ++ chain ++ [OutBlank] else [])
  ∧ g_targets s' = (if found then g_targets s ∖ {[to]} else g_targets s).

(** 1 when the identity has no node in the index yet, 0 otherwise. *)
Definition unseen (p : Z) (index : gmap Z Object) : nat :=
  match index !! p with Some _ => 0 | None => 1 end.

(** A call that leaves all but the event log as it was. *)
Definition inert (s s' : State) : Prop :=
  g_index s' = g_index s ∧ g_targets s' = g_targets s
  ∧ g_recording s' = g_recording s ∧ trace s' = trace s
  ∧ g_flight_recorder_enabled (recorder s')
    = g_flight_recorder_enabled (recorder s)
  ∧ (recorder_ok (recorder s) → recorder_ok (recorder s')).

(** How often the target [p] is reported in a trace. *)
Fixpoint reports (p : Z) (ls : list Out) : nat :=
  match ls with
  | [] => 0
  | OutTargetFound q :: ls' =>
      ((if decide (q = p) then 1 else 0) + reports p ls')%nat
  | _ :: ls' => reports p ls'
  end.

(** Nodes used in the examples: a root whose parent pointer is set, and a
    field of it, so that the two parent pointers form a cycle. *)
Definition looped_root : Object :=
  {| m_pointer := 1; m_parent := Some 2; m_type_ref := ROOT;
     m_name := "main"; m_index := 0 |}.
Definition looped_field : Object :=
  {| m_pointer := 2; m_parent := Some 1; m_type_ref := FIELD;
     m_name := "x"; m_index := 3 |}.
Definition looped_index : gmap Z Object :=
  <[1 := looped_root]> (<[2 := looped_field]> ∅).

(** The state that a call returns in, [d] when it does not return. *)
Definition force (d : State) (r : Res State) : State :=
  match r with Ok s => s | _ => d end.

(** A host for the examples: every type has two pointer fields, [head] at
    offset 0 and [tail] at offset 8, and every field points to the object
    at address 7. *)
Definition example_host : Host :=
  {| jl_typeof := λ _, 100;
     jl_data_ptr := λ v, v;
     jl_datatype_nfields := λ _, 2;
     jl_field_offset := λ _ i, 8 * i;
     jl_field_isptr := λ _ _, true;
     jl_field_type := λ _ _, 100;
     jl_stored_inline := λ _, false;
     jl_is_tuple_type := λ _, false;
     jl_is_namedtuple_type := λ _, false;
     namedtuple_field_name := λ _ _, None;
     field_name := λ _ i, if i =? 0 then "head" else "tail";
     load_pointer := λ _, 7 |}.

(** A session that records, with the target 7 and an empty index. *)
Definition example_session : State :=
  {| g_targets := {[7]}; g_recording := true; g_index := ∅;
     recorder := {| g_flight_recorder := example_fresh;
                    g_flight_recorder_enabled := true |};
     trace := [] |}.

(** The same before the session: the target is registered, nothing
    records. *)
Definition example_idle : State :=
  {| g_targets := {[7]}; g_recording := false; g_index := ∅;
     recorder := {| g_flight_recorder := example_fresh;
                    g_flight_recorder_enabled := false |};
     trace := [] |}.

(** The session after the root 1 was reported. *)
Definition example_rooted : State :=
  force example_session
    (callback example_host 5 (RecordRoot 1 "main") example_session).

(** The collections of the example session: one warm-up collection, and
    the collection that is traced, which reports the root 1 and then its
    field [tail], the target 7. *)
Definition example_autos : list (list Callback) := [[RecordRoot 1 "main"]].
Definition example_calls : list Callback :=
  [RecordRoot 1 "main"; RecordObject 1 7 9].
Definition example_warm : State :=
  force example_idle
    (warm_up example_host 5 example_autos (trace_reset example_idle)).
Definition example_traced : State :=
  force example_idle
    (jl_gc_collect example_host 5 example_calls (trace_start example_warm)).

(** The example session with a collector that reports the root only. *)
Definition example_missed : State :=
  force example_idle
    (jl_gc_trace example_host 5 example_autos [RecordRoot 1 "main"]
       example_idle).

(** A host whose types have no field. *)
Definition example_fieldless_host : Host :=
  {| jl_typeof := λ _, 100;
     jl_data_ptr := λ v, v;
     jl_datatype_nfields := λ _, 0;
     jl_field_offset := λ _ i, 8 * i;
     jl_field_isptr := λ _ _, true;
     jl_field_type := λ _ _, 100;
     jl_stored_inline := λ _, false;
     jl_is_tuple_type := λ _, false;
     jl_is_namedtuple_type := λ _, false;
     namedtuple_field_name := λ _ _, None;
     field_name := λ _ _, "";
     load_pointer := λ _, 7 |}.

(** A host with a struct stored inline: the type 100 has the pointer
    field [head] at offset 0 and, at offset 8, the field [inner] of the
    type 200, stored inline; the type 200 has the pointer fields [x] at
    offset 0 and [y] at offset 8. Every pointer field points to the
    object at address 7. *)
Definition example_nested_host : Host :=
  {| jl_typeof := λ _, 100;
     jl_data_ptr := λ v, v;
     jl_datatype_nfields := λ _, 2;
     jl_field_offset := λ _ i, 8 * i;
     jl_field_isptr := λ dt i, negb ((dt =? 100) && (i =? 1));
     jl_field_type := λ _ _, 200;
     jl_stored_inline := λ dt, dt =? 200;
     jl_is_tuple_type := λ _, false;
     jl_is_namedtuple_type := λ _, false;
     namedtuple_field_name := λ _ _, None;
     field_name := λ dt i,
       if dt =? 100 then (if i =? 0 then "head" else "inner")
       else (if i =? 0 then "x" else "y");
     load_pointer := λ _, 7 |}.

(** ** Definitions for the further properties *)

(** What a use of [FR] in gc-tracing.cpp logs. *)
Definition logged (line : Z) (function text : string) : Entry * string :=
  ({| m_source := FILE; m_line := line; m_function := function |}, text).

(** The index has no dangling pointer: a node is stored under its own
    pointer, and the parent of a node is in the index. *)
Definition index_ok (index : gmap Z Object) : Prop :=
  ∀ k o, index !! k = Some o →
         m_pointer o = k ∧ ∀ p, m_parent o = Some p → is_Some (index !! p).

(** The lines of a chain, numbered from [i]: every line but the last is
    headed by the pointer that the next line is about, and the last line is
    headed <root> or <unknown>. *)
Inductive linked : Z → list Out → Prop :=
  | linked_last i head name position pointer :
      head = HeadRoot ∨ head = HeadUnknown →
      linked i [OutChain i head name position pointer]
  | linked_next i p name position pointer head' name' position' rest :
      linked (i + 1) (OutChain (i + 1) head' name' position' p :: rest) →
      linked i (OutChain i (HeadParent p) name position pointer
                :: OutChain (i + 1) head' name' position' p :: rest).

End GcTracingSpec.

(** * Properties of the flight recorder *)

Module FlightRecorderFacts.
Import FlightRecorder FlightRecorderSpec.

Lemma to_uint64_small z : 0 ≤ z < 2 ^ 64 → to_uint64 z = z.
Proof. intros H. unfold to_uint64. apply Z.mod_small. exact H. Qed.

Lemma to_int64_small z : - 2 ^ 63 ≤ z < 2 ^ 63 → to_int64 z = z.
Proof.
  intros H. unfold to_int64. rewrite Z.mod_small; lia.
Qed.

Lemma mod_window_ne C a b :
  0 < C → a < b → b - a < C → a mod C ≠ b mod C.
Proof.
  intros HC Hab Hw E.
  assert (H0 : (b - a) mod C = 0).
  { rewrite Zminus_mod, E, Z.sub_diag. apply Zmod_0_l. }
  rewrite Z.mod_small in H0 by lia. lia.
Qed.

Lemma size_nonfull fr : m_is_full fr = false → size fr = m_end fr.
Proof. unfold size. intros ->. reflexivity. Qed.

Lemma size_full fr : m_is_full fr = true → size fr = m_capacity fr.
Proof. unfold size, capacity. intros ->. reflexivity. Qed.

(** The translation of a logical index, with the machine arithmetic
    resolved. *)
Lemma to_array_index_cases fr i :
  0 ≤ m_end fr < m_capacity fr → m_capacity fr < 2 ^ 63 →
  0 ≤ i < size fr →
  to_array_index fr i
  = Some (if m_is_full fr
          then if i <? m_capacity fr - m_end fr then m_end fr + i
               else i - (m_capacity fr - m_end fr)
          else i).
Proof.
  intros He HC Hi. unfold to_array_index.
  assert (Hs : size fr ≤ m_capacity fr).
  { unfold size, capacity. destruct (m_is_full fr); lia. }
  rewrite (to_int64_small (size fr)) by lia.
  destruct (Z.leb_spec (size fr) i); [lia|].
  destruct (Z.ltb_spec i 0); [lia|]. simpl.
  destruct (m_is_full fr) eqn:Hf; simpl.
  - rewrite size_full in * by done.
    rewrite (to_uint64_small (m_capacity fr - m_end fr)) by lia.
    rewrite (to_int64_small (m_capacity fr - m_end fr)) by lia.
    destruct (Z.ltb_spec i (m_capacity fr - m_end fr));
      rewrite to_uint64_small; (done || lia).
  - rewrite to_uint64_small; [done | lia].
Qed.


Lemma mod_succ C N :
  0 < C → (N + 1) mod C = if N mod C + 1 =? C then 0 else N mod C + 1.
Proof.
  intros HC. pose proof (Z.mod_pos_bound N C HC) as Hb.
  pose proof (Z.div_mod N C ltac:(lia)) as Hd.
  destruct (Z.eqb_spec (N mod C + 1) C) as [E|E]; symmetry.
  - apply Z.mod_unique with (q := N / C + 1); lia.
  - apply Z.mod_unique with (q := N / C); lia.
Qed.

Lemma ctor_Some C message_sz fr :
  0 < C → ctor C message_sz = Some fr →
  C < 2 ^ 63
  ∧ fr = {| m_end := 0; m_capacity := C; m_is_full := false;
            m_array := replicate (Z.to_nat C) zero_entry;
            m_buffer := replicate (Z.to_nat C) ""%string;
            m_message_sz := message_sz |}.
Proof.
  intros HC. unfold ctor, calloc_ok, sizeof_Entry.
  destruct (Z.eqb_spec C 0); [lia|].
  destruct (Z.ltb_spec (C * 24) (2 ^ 64)); simpl; [|done].
  destruct (to_uint64 (C * message_sz) * 1 <? 2 ^ 64); simpl; [|done].
  intros [= <-]. split; [lia | done].
Qed.

(** The constructor returns for every capacity whose array of entries can
    be allocated, whatever the size of the messages: the size of the
    arena wraps around instead of failing. *)
Lemma ctor_returns C message_sz :
  0 < C → C * sizeof_Entry < 2 ^ 64 → is_Some (ctor C message_sz).
Proof.
  intros HC Hfit. unfold ctor, calloc_ok.
  destruct (Z.eqb_spec C 0); [lia|].
  destruct (Z.ltb_spec (C * sizeof_Entry) (2 ^ 64)); [|lia].
  assert (Hw : to_uint64 (C * message_sz) * 1 < 2 ^ 64).
  { unfold to_uint64.
    pose proof (Z.mod_pos_bound (C * message_sz) (2 ^ 64) ltac:(lia)). lia. }
  destruct (Z.ltb_spec (to_uint64 (C * message_sz) * 1) (2 ^ 64)); [|lia].
  simpl. eauto.
Qed.

Lemma follows_ctor C message_sz fr :
  0 < C → ctor C message_sz = Some fr → follows C 0 fr.
Proof.
  intros HC H. destruct (ctor_Some _ _ _ HC H) as [_ ->].
  unfold follows; simpl. rewrite Zmod_0_l.
  destruct (Z.leb_spec C 0); [lia | done].
Qed.

(** [log] moves the cursor as one more insertion does. *)
Lemma follows_log C N ins fr :
  0 < C < 2 ^ 64 → 0 ≤ N → follows C N fr → follows C (N + 1) (log ins fr).
Proof.
  intros HC HN (Hcap & Hend & Hfull).
  pose proof (Z.mod_pos_bound N C ltac:(lia)) as Hb.
  assert (Hle : N mod C ≤ N) by (apply Z.mod_le; lia).
  unfold log, insert_c_api, snprintf, follows.
  rewrite Hend, Hcap, Hfull, (mod_succ C N) by lia.
  rewrite to_uint64_small by lia.
  destruct (m_message_sz fr =? 0); simpl;
    (split; [done|]); (split; [done|]);
    destruct (Z.eqb_spec (N mod C + 1) C) as [E|E];
    destruct (Z.leb_spec C N), (Z.leb_spec C (N + 1)); try done; try lia;
    rewrite Z.mod_small in E by lia; lia.
Qed.

Lemma log_all_snoc l ins fr :
  log_all (l ++ [ins]) fr = log ins (log_all l fr).
Proof. unfold log_all. rewrite foldl_app. reflexivity. Qed.

Lemma follows_log_all C N l fr :
  0 < C < 2 ^ 64 → 0 ≤ N → follows C N fr →
  follows C (N + Z.of_nat (length l)) (log_all l fr).
Proof.
  intros HC HN H. induction l as [|ins l IH] using rev_ind.
  - simpl. rewrite Z.add_0_r. exact H.
  - rewrite log_all_snoc, length_app. simpl.
    replace (N + Z.of_nat (length l + 1)) with (N + Z.of_nat (length l) + 1)
      by lia.
    apply follows_log; [done | lia | done].
Qed.

Lemma follows_size C N fr :
  0 < C → 0 ≤ N → follows C N fr → size fr = Z.min N C.
Proof.
  intros HC HN (Hcap & Hend & Hfull). unfold size, capacity.
  rewrite Hfull, Hend, Hcap.
  destruct (Z.leb_spec C N); [lia|].
  rewrite Z.mod_small; lia.
Qed.


Lemma holds_ctor C message_sz fr :
  0 < C → ctor C message_sz = Some fr → holds C message_sz [] fr.
Proof.
  intros HC H. split; [by eapply follows_ctor|].
  destruct (ctor_Some _ _ _ HC H) as [_ ->]. simpl.
  rewrite !length_replicate. repeat split; try done.
Qed.

(** One more insertion: the slot under the cursor takes it, the other
    slots of the window are not touched. *)
Lemma holds_log C message_sz l ins fr :
  0 < C < 2 ^ 64 → 0 < message_sz →
  holds C message_sz l fr → holds C message_sz (l ++ [ins]) (log ins fr).
Proof.
  intros HC Hm (Hfol & Hmsz & Hla & Hlb & Hslots).
  set (N := Z.of_nat (length l)) in *.
  assert (HfolS : follows C (N + 1) (log ins fr))
    by (apply follows_log; [done | lia | done]).
  destruct Hfol as (Hcap & Hend & Hfull).
  pose proof (Z.mod_pos_bound N C ltac:(lia)) as Hb.
  unfold holds. rewrite length_app. simpl length.
  replace (Z.of_nat (length l + 1)) with (N + 1) by lia.
  split; [done|].
  unfold log, insert_c_api, snprintf. rewrite Hmsz.
  destruct (Z.eqb_spec message_sz 0) as [E0|E0]; [lia|]. simpl.
  rewrite !length_insert. do 3 (split; [done|]).
  intros n x Hn Hx. rewrite Hend.
  destruct (decide (n < length l)%nat) as [Hlt|Hge].
  - rewrite lookup_app_l in Hx by done.
    destruct (Hslots n x ltac:(lia) Hx) as [Ha Hbf].
    assert (Hne : Z.of_nat n mod C ≠ N mod C)
      by (apply mod_window_ne; lia).
    pose proof (Z.mod_pos_bound (Z.of_nat n) C ltac:(lia)).
    rewrite !list_lookup_insert_ne by lia. done.
  - apply lookup_lt_Some in Hx as Hlen. rewrite length_app in Hlen.
    simpl in Hlen. assert (n = length l) as -> by lia.
    rewrite lookup_app_r, Nat.sub_diag in Hx by lia.
    injection Hx as <-. fold N.
    rewrite !list_lookup_insert_eq by lia. by destruct ins as [[] ?].
Qed.

Lemma holds_log_all C message_sz l fr :
  0 < C → 0 < message_sz → ctor C message_sz = Some fr →
  holds C message_sz l (log_all l fr).
Proof.
  intros HC Hm H. destruct (ctor_Some _ _ _ HC H) as [HC' _].
  induction l as [|ins l IH] using rev_ind.
  - by apply holds_ctor.
  - rewrite log_all_snoc. apply holds_log; [lia | done | done].
Qed.


(** The logical index [i] of a recorder that holds [l] is the insertion
    number [length l - size + i]. *)
Lemma dump_line_holds C message_sz l fr i j :
  0 < C < 2 ^ 63 → holds C message_sz l fr → 0 ≤ i < size fr →
  ∃ ins, l !! Z.to_nat (Z.of_nat (length l) - size fr + i) = Some ins
         ∧ dump_line fr i j = Ok (line_of j (stored message_sz ins)).
Proof.
  intros HC (Hfol & Hmsz & Hla & Hlb & Hslots) Hi.
  set (N := Z.of_nat (length l)) in *.
  pose proof (follows_size C N fr ltac:(lia) ltac:(lia) Hfol) as Hsz.
  destruct Hfol as (Hcap & Hend & Hfull).
  pose proof (Z.mod_pos_bound N C ltac:(lia)) as Hb.
  set (n := Z.to_nat (N - size fr + i)).
  destruct (lookup_lt_is_Some_2 l n ltac:(lia)) as [ins Hins].
  exists ins. split; [done|].
  destruct (Hslots n ins ltac:(lia) Hins) as [Ha Hbf].
  unfold dump_line. rewrite to_int64_small by lia.
  rewrite to_array_index_cases by lia.
  assert (Hk : (if m_is_full fr
                then if i <? m_capacity fr - m_end fr then m_end fr + i
                     else i - (m_capacity fr - m_end fr)
                else i) = Z.of_nat n mod C).
  { rewrite Hfull, Hcap, Hend. subst n. rewrite Z2Nat.id by lia.
    pose proof (Z.div_mod N C ltac:(lia)) as Hd.
    destruct (Z.leb_spec C N).
    - destruct (Z.ltb_spec i (C - N mod C)).
      + apply Z.mod_unique with (q := N / C - 1); lia.
      + apply Z.mod_unique with (q := N / C); lia.
    - rewrite Z.mod_small; lia. }
  rewrite Hk, Ha, Hbf. reflexivity.
Qed.

Lemma dump_loop_holds C message_sz l fr n :
  0 < C < 2 ^ 63 → holds C message_sz l fr →
  ∀ i j, 0 ≤ i → i + Z.of_nat n ≤ size fr →
         Z.of_nat n ≤ j + 1 → 0 ≤ j < 2 ^ 64 →
  dump_loop fr n i j
  = Ok (lines_of j
          (stored message_sz
             <$> take n (drop (Z.to_nat (Z.of_nat (length l) - size fr + i))
                           l))).
Proof.
  intros HC Hh. induction n as [|n IH]; intros i j Hi Hn Hj Hj'.
  - reflexivity.
  - destruct (dump_line_holds C message_sz l fr i j HC Hh ltac:(lia))
      as (ins & Hins & Hline).
    assert (Hsz : size fr = Z.min (Z.of_nat (length l)) C).
    { destruct Hh as (Hfol & _). apply follows_size; (lia || done). }
    simpl dump_loop. rewrite Hline. simpl.
    rewrite (drop_S _ _ _ Hins). simpl.
    rewrite (to_uint64_small (i + 1)) by lia.
    replace (S (Z.to_nat (Z.of_nat (length l) - size fr + i)))
      with (Z.to_nat (Z.of_nat (length l) - size fr + (i + 1))) by lia.
    destruct n as [|n'].
    + reflexivity.
    + rewrite (to_uint64_small (j - 1)) by lia.
      rewrite IH by lia. reflexivity.
Qed.

(** What [dump] prints when the recorder holds the history [l]: the last
    [min (size) max_num_entries] insertions, oldest first. *)
Lemma dump_holds C message_sz l fr m :
  0 < C < 2 ^ 63 → holds C message_sz l fr → 0 ≤ m < 2 ^ 64 →
  let num := Z.min (size fr) m in
  dump m fr
  = Ok (Header (if size fr =? 0 then None else Some num)
        :: lines_of (num - 1) (stored message_sz <$> last_n num l)).
Proof.
  intros HC Hh Hm num. unfold dump. fold num.
  assert (Hsz : size fr = Z.min (Z.of_nat (length l)) C).
  { destruct Hh as (Hfol & _). apply follows_size; (lia || done). }
  assert (Hnum : 0 ≤ num ≤ size fr) by lia.
  rewrite (to_uint64_small (size fr - num)) by lia.
  replace (Z.to_nat (size fr - (size fr - num))) with (Z.to_nat num) by lia.
  destruct (decide (num = 0)) as [E|E].
  - rewrite E. simpl. unfold last_n.
    rewrite Z.sub_0_r, Nat2Z.id, drop_all. reflexivity.
  - rewrite (dump_loop_holds C message_sz l fr) by
      first [done | rewrite to_uint64_small; lia | lia].
    simpl. rewrite (to_uint64_small (num - 1)) by lia. unfold last_n.
    replace (Z.of_nat (length l) - size fr + (size fr - num))
      with (Z.of_nat (length l) - num) by lia.
    rewrite take_ge; [reflexivity|]. rewrite length_drop. lia.
Qed.


(** ** Index translation *)

(** Claim C4. In a full recorder of capacity [C] with write cursor [end],
    the logical index [i] of [[0, C)] is translated to the slot [end + i]
    when [i < C - end] and to [i - (C - end)] otherwise, which is
    [(end + i) mod C]; in a recorder that is not full, the logical index
    [i] below [size()] is translated to the slot [i] itself. *)
Theorem to_array_index_translation (fr : t) (i : Z) :
  0 ≤ m_end fr < m_capacity fr → m_capacity fr < 2 ^ 63 →
  0 ≤ i < size fr →
  (m_is_full fr = true →
   to_array_index fr i
   = Some (if i <? m_capacity fr - m_end fr then m_end fr + i
           else i - (m_capacity fr - m_end fr))
   ∧ to_array_index fr i = Some ((m_end fr + i) mod m_capacity fr))
  ∧ (m_is_full fr = false → to_array_index fr i = Some i).
Proof.
  intros He HC Hi. rewrite to_array_index_cases by done.
  split; intros Hf; rewrite Hf; [|done].
  split; [done|]. f_equal.
  rewrite size_full in Hi by done.
  destruct (Z.ltb_spec i (m_capacity fr - m_end fr)).
  - rewrite Z.mod_small; lia.
  - apply Z.mod_unique with (q := 1); lia.
Qed.

Lemma to_array_index_translation_witness :
  (m_is_full example_full = true →
   to_array_index example_full 2
   = Some (if 2 <? m_capacity example_full - m_end example_full
           then m_end example_full + 2
           else 2 - (m_capacity example_full - m_end example_full))
   ∧ to_array_index example_full 2
     = Some ((m_end example_full + 2) mod m_capacity example_full))
  ∧ (m_is_full example_full = false → to_array_index example_full 2 = Some 2).
Proof.
  apply (to_array_index_translation example_full 2);
    unfold size, capacity, example_full; simpl; lia.
Defined.

(** ** Size and cursor *)

(** Claim C6. Take a recorder as its constructor leaves it: capacity
    [C > 0], cursor 0, not full. After [N] insertions [size()] is
    [min N C], the write cursor is in [[0, C)] (it is [N mod C]), and the
    recorder is full exactly when [C ≤ N], that is from the insertion that
    wraps the cursor on. *)
Theorem size_after_insertions (C : Z) (fr : t) (l : list (Entry * string)) :
  0 < C < 2 ^ 64 →
  m_capacity fr = C → m_end fr = 0 → m_is_full fr = false →
  let N := Z.of_nat (length l) in
  let fr' := log_all l fr in
  size fr' = Z.min N C
  ∧ 0 ≤ m_end fr' < C
  ∧ m_end fr' = N mod C
  ∧ (m_is_full fr' = true ↔ C ≤ N)
  ∧ capacity fr' = C.
Proof.
  intros HC Hcap Hend Hfull N fr'.
  assert (Hfol : follows C N fr').
  { apply (follows_log_all C 0 l fr); [lia | lia |].
    unfold follows. rewrite Hcap, Hend, Hfull, Zmod_0_l.
    destruct (Z.leb_spec C 0); [lia | done]. }
  split; [apply follows_size; (lia || done)|].
  destruct Hfol as (Hcap' & Hend' & Hfull').
  pose proof (Z.mod_pos_bound N C ltac:(lia)).
  rewrite Hend', Hfull'. unfold capacity.
  repeat split; try lia; try done; rewrite Z.leb_le; done.
Qed.

Lemma size_after_insertions_witness :
  let N := Z.of_nat (length five) in
  let fr' := log_all five example_fresh in
  size fr' = Z.min N 3
  ∧ 0 ≤ m_end fr' < 3
  ∧ m_end fr' = N mod 3
  ∧ (m_is_full fr' = true ↔ 3 ≤ N)
  ∧ capacity fr' = 3.
Proof.
  apply (size_after_insertions 3 example_fresh five);
    [lia | reflexivity | reflexivity | reflexivity].
Defined.

(** The constructor, when it returns, leaves such a recorder. *)
Lemma ctor_fresh C message_sz fr :
  0 < C → ctor C message_sz = Some fr →
  C < 2 ^ 64 ∧ m_capacity fr = C ∧ m_end fr = 0 ∧ m_is_full fr = false.
Proof.
  intros HC H. destruct (ctor_Some _ _ _ HC H) as [HC' ->]. simpl. lia.
Qed.

(** ** Overwriting the oldest entries *)

(** Claim C5, as stated, fails: with the capacity 2 and two insertions
    ([k = 0]), [dump(1)] prints one entry, the newest, and not the last 2
    insertions. *)
Lemma dump_bound_counterexample :
  let l := [entry 1; entry 2] in
  ∃ fr, ctor 2 16 = Some fr
        ∧ dump 1 (log_all l fr)
          = Ok [Header (Some 1); EntryLine 0 "src/gc.c" 2 "mark" "t=2"]
        ∧ ∀ j, [EntryLine 0 "src/gc.c" 2 "mark" "t=2"]
               ≠ lines_of j (stored 16 <$> last_n 2 l).
Proof.
  eexists. split; [reflexivity|]. split; [vm_compute; reflexivity|].
  intros j. vm_compute. discriminate.
Qed.

(** Claim C5, amended. Take the recorder that the constructor returns
    for the capacity [C] and messages of [message_sz > 0] bytes, the size
    [C * message_sz] of the arena fitting in 64 bits (the constructor
    returns also when it does not, with an arena that is too small for
    the slots, which is outside the claim). After [C + k] insertions,
    [0 ≤ k < C], [dump] with the bound [m] prints, after its header,
    exactly [min (size()) m] entries: the last [min C m] insertions,
    oldest first, numbered downwards to 0, each message cut to the size of
    a slot. When [m ≥ C] these are exactly the last [C] insertions in
    insertion order, the first [k] having been overwritten. *)
Theorem dump_after_overwrite (C message_sz k m : Z) (fr : t)
    (l : list (Entry * string)) :
  0 < C → 0 < message_sz → C * message_sz < 2 ^ 64 →
  ctor C message_sz = Some fr →
  0 ≤ k < C → Z.of_nat (length l) = C + k → 0 ≤ m < 2 ^ 64 →
  let fr' := log_all l fr in
  let num := Z.min (size fr') m in
  size fr' = C
  ∧ dump m fr'
    = Ok (Header (Some num)
          :: lines_of (num - 1) (stored message_sz <$> last_n num l))
  ∧ Z.of_nat (length (lines_of (num - 1)
                        (stored message_sz <$> last_n num l))) = num
  ∧ last_n num l = last_n num (drop (Z.to_nat k) l)
  ∧ (C ≤ m → num = C ∧ last_n num l = drop (Z.to_nat k) l).
Proof.
  intros HC Hm Harena H Hk Hl Hm' fr' num.
  destruct (ctor_Some _ _ _ HC H) as [HC' _].
  pose proof (holds_log_all C message_sz l fr HC Hm H) as Hh. fold fr' in Hh.
  assert (Hsz : size fr' = C).
  { destruct Hh as (Hfol & _).
    rewrite (follows_size C (Z.of_nat (length l)) fr'); (lia || done). }
  split; [done|]. split; [|split; [|split]].
  - rewrite (dump_holds C message_sz l fr' m) by (lia || done). fold num.
    rewrite Hsz. destruct (Z.eqb_spec C 0); [lia | done].
  - assert (Hlen : ∀ j (l' : list (Entry * string)),
               length (lines_of j l') = length l').
    { intros j l'. revert j. induction l' as [|x l' IH]; intros j; simpl;
        [done | by rewrite IH]. }
    rewrite Hlen, length_fmap. unfold last_n. rewrite length_drop. lia.
  - unfold last_n. rewrite length_drop, drop_drop. f_equal. lia.
  - intros Hle. split; [lia|]. unfold last_n. f_equal. lia.
Qed.

Lemma dump_after_overwrite_witness :
  let fr' := log_all five example_fresh in
  let num := Z.min (size fr') 10 in
  size fr' = 3
  ∧ dump 10 fr'
    = Ok (Header (Some num)
          :: lines_of (num - 1) (stored 16 <$> last_n num five))
  ∧ Z.of_nat (length (lines_of (num - 1) (stored 16 <$> last_n num five)))
    = num
  ∧ last_n num five = last_n num (drop (Z.to_nat 2) five)
  ∧ (3 ≤ 10 → num = 3 ∧ last_n num five = drop (Z.to_nat 2) five).
Proof.
  apply (dump_after_overwrite 3 16 2 10 example_fresh five);
    [lia | lia | lia | reflexivity | lia | reflexivity | lia].
Defined.

(** The example of the specification: capacity 3, messages of 16 bytes,
    5 insertions; [dump(10)] prints the 3rd, 4th and 5th, oldest first. *)
Example dump_five :
  dump 10 (log_all five example_fresh)
  = Ok [Header (Some 3);
        EntryLine 2 "src/gc.c" 3 "mark" "t=3";
        EntryLine 1 "src/gc.c" 4 "mark" "t=4";
        EntryLine 0 "src/gc.c" 5 "mark" "t=5"].
Proof. vm_compute. reflexivity. Qed.


(** ** Well-formed recorders *)

Lemma well_formed_ctor C message_sz fr :
  0 < C → ctor C message_sz = Some fr → well_formed fr.
Proof.
  intros HC H. destruct (ctor_Some _ _ _ HC H) as [HC' ->].
  unfold well_formed. simpl. rewrite !length_replicate. lia.
Qed.

Lemma well_formed_insert_c_api source line function fr :
  well_formed fr → well_formed (insert_c_api source line function fr).2.
Proof.
  intros (He & HC & Ha & Hb). unfold well_formed, insert_c_api. simpl.
  rewrite length_insert, to_uint64_small by lia.
  destruct (Z.eqb_spec (m_end fr + 1) (m_capacity fr)); lia.
Qed.

Lemma well_formed_snprintf buffer buffer_sz text fr :
  well_formed fr → well_formed (snprintf buffer buffer_sz text fr).
Proof.
  intros (He & HC & Ha & Hb). unfold well_formed, snprintf.
  destruct (buffer_sz =? 0); simpl; rewrite ?length_insert; lia.
Qed.

Lemma well_formed_FR source line function text g :
  well_formed (g_flight_recorder g) →
  well_formed (g_flight_recorder (FR source line function text g)).
Proof.
  intros H. unfold FR, flight_recorder_insert.
  destruct (g_flight_recorder_enabled g); [|done].
  pose proof (well_formed_insert_c_api source line function _ H) as H'.
  destruct (insert_c_api source line function (g_flight_recorder g))
    as [[buffer buffer_sz] fr']. simpl in *.
  by apply well_formed_snprintf.
Qed.

Lemma enabled_FR source line function text g :
  g_flight_recorder_enabled (FR source line function text g)
  = g_flight_recorder_enabled g.
Proof.
  unfold FR, flight_recorder_insert.
  destruct (g_flight_recorder_enabled g) eqn:E; [|done].
  destruct (insert_c_api source line function (g_flight_recorder g))
    as [[buffer buffer_sz] fr']. done.
Qed.

Lemma dump_line_well_formed fr i j :
  well_formed fr → 0 ≤ i < size fr → ∃ l, dump_line fr i j = Ok l.
Proof.
  intros (He & HC & Ha & Hb) Hi. unfold dump_line.
  assert (Hs : size fr ≤ m_capacity fr).
  { unfold size, capacity. destruct (m_is_full fr); lia. }
  rewrite to_int64_small by lia.
  rewrite to_array_index_cases by lia.
  set (k := if m_is_full fr then _ else _).
  assert (Hk : 0 ≤ k < m_capacity fr).
  { subst k. unfold size, capacity in Hi.
    destruct (m_is_full fr); [|lia].
    destruct (Z.ltb_spec i (m_capacity fr - m_end fr)); lia. }
  destruct (lookup_lt_is_Some_2 (m_array fr) (Z.to_nat k) ltac:(lia))
    as [e ->].
  destruct (lookup_lt_is_Some_2 (m_buffer fr) (Z.to_nat k) ltac:(lia))
    as [msg ->].
  eauto.
Qed.

Lemma dump_loop_well_formed fr n :
  well_formed fr →
  ∀ i j, 0 ≤ i → i + Z.of_nat n ≤ size fr →
  ∃ ls, dump_loop fr n i j = Ok ls ∧ length ls = n.
Proof.
  intros Hw. induction n as [|n IH]; intros i j Hi Hn; simpl.
  - eauto.
  - destruct (dump_line_well_formed fr i j Hw ltac:(lia)) as [l ->]. simpl.
    assert (Hs : size fr < 2 ^ 63).
    { destruct Hw as (He & HC & _). unfold size, capacity.
      destruct (m_is_full fr); lia. }
    rewrite (to_uint64_small (i + 1)) by lia.
    destruct (IH (i + 1) (to_uint64 (j - 1)) ltac:(lia) ltac:(lia))
      as (ls & -> & Hlen).
    simpl. eexists. split; [reflexivity|]. simpl. by rewrite Hlen.
Qed.

(** [dump] returns on a well-formed recorder, after the header and
    [min (size()) max_num_entries] lines. *)
Lemma dump_well_formed m fr :
  well_formed fr → 0 ≤ m →
  ∃ ls, dump m fr
        = Ok (Header (if size fr =? 0 then None
                      else Some (Z.min (size fr) m)) :: ls)
        ∧ Z.of_nat (length ls) = Z.min (size fr) m.
Proof.
  intros Hw Hm. unfold dump.
  assert (Hs : 0 ≤ size fr < 2 ^ 63).
  { destruct Hw as (He & HC & _). unfold size, capacity.
    destruct (m_is_full fr); lia. }
  rewrite (to_uint64_small (size fr - _)) by lia.
  destruct (dump_loop_well_formed fr
              (Z.to_nat (size fr - (size fr - Z.min (size fr) m))) Hw
              (size fr - Z.min (size fr) m)
              (to_uint64 (Z.min (size fr) m - 1)) ltac:(lia) ltac:(lia))
    as (ls & -> & Hlen).
  simpl. eexists. split; [reflexivity|]. lia.
Qed.


(** * Further properties of the flight recorder *)

(** ** The translation of indices, as a map *)

(** Outside [[0, size())] the translation takes the fatal path. *)
Lemma to_array_index_outside (fr : t) (i : Z) :
  well_formed fr → ¬ (0 ≤ i < size fr) → to_array_index fr i = None.
Proof.
  intros (He & HC & _) Hi.
  assert (Hs : 0 ≤ size fr ≤ m_capacity fr).
  { unfold size, capacity. destruct (m_is_full fr); lia. }
  unfold to_array_index.
  rewrite (to_int64_small (size fr)) by lia.
  destruct (Z.leb_spec (size fr) i); [done|].
  destruct (Z.ltb_spec i 0); [done | lia].
Qed.

(** [to_array_index] returns exactly for the logical indices of
    [[0, size())], and the slot it returns is within the arrays; for any
    other index it takes the fatal path. *)
Theorem to_array_index_bounds (fr : t) (i : Z) :
  well_formed fr →
  (0 ≤ i < size fr →
     ∃ k, to_array_index fr i = Some k ∧ 0 ≤ k < capacity fr)
  ∧ (¬ (0 ≤ i < size fr) → to_array_index fr i = None).
Proof.
  intros Hw. pose proof Hw as (He & HC & _).
  assert (Hs : 0 ≤ size fr ≤ m_capacity fr).
  { unfold size, capacity. destruct (m_is_full fr); lia. }
  split.
  - intros Hi. rewrite to_array_index_cases by lia.
    eexists. split; [reflexivity|]. unfold capacity.
    unfold size, capacity in Hi. destruct (m_is_full fr); [|lia].
    destruct (Z.ltb_spec i (m_capacity fr - m_end fr)); lia.
  - by apply to_array_index_outside.
Qed.

Lemma well_formed_example_full : well_formed example_full.
Proof. unfold well_formed. simpl. lia. Qed.

Lemma to_array_index_bounds_witness :
  (0 ≤ 2 < size example_full →
     ∃ k, to_array_index example_full 2 = Some k
          ∧ 0 ≤ k < capacity example_full)
  ∧ (¬ (0 ≤ 2 < size example_full) → to_array_index example_full 2 = None).
Proof.
  apply (to_array_index_bounds example_full 2).
  exact well_formed_example_full.
Defined.

(** On [[0, size())] the translation is one to one and onto: no two
    logical indices share a slot, and every slot below [size()] holds a
    logical index. *)
Theorem to_array_index_bijection (fr : t) :
  well_formed fr →
  (∀ i j k, to_array_index fr i = Some k → to_array_index fr j = Some k →
            i = j)
  ∧ (∀ k, 0 ≤ k < size fr →
          ∃ i, 0 ≤ i < size fr ∧ to_array_index fr i = Some k).
Proof.
  intros Hw. pose proof Hw as (He & HC & _).
  assert (Hin : ∀ i k, to_array_index fr i = Some k → 0 ≤ i < size fr).
  { intros i k Hk. destruct (decide (0 ≤ i < size fr)) as [|Hn]; [done|].
    apply (to_array_index_outside fr i Hw) in Hn. congruence. }
  split.
  - intros i j k Hi Hj.
    pose proof (Hin i k Hi) as Hi'. pose proof (Hin j k Hj) as Hj'.
    rewrite to_array_index_cases in Hi, Hj by lia.
    unfold size, capacity in Hi', Hj'.
    destruct (m_is_full fr); [|congruence].
    destruct (Z.ltb_spec i (m_capacity fr - m_end fr)),
             (Z.ltb_spec j (m_capacity fr - m_end fr));
      injection Hi as <-; injection Hj as Hj; lia.
  - intros k Hk. unfold size, capacity in Hk.
    destruct (m_is_full fr) eqn:Hf.
    + destruct (Z.ltb_spec k (m_end fr)).
      * exists (k + (m_capacity fr - m_end fr)).
        rewrite size_full by done. split; [lia|].
        rewrite to_array_index_cases by (rewrite ?size_full; done || lia).
        rewrite Hf.
        destruct (Z.ltb_spec (k + (m_capacity fr - m_end fr))
                    (m_capacity fr - m_end fr)); [lia|]. f_equal. lia.
      * exists (k - m_end fr). rewrite size_full by done. split; [lia|].
        rewrite to_array_index_cases by (rewrite ?size_full; done || lia).
        rewrite Hf.
        destruct (Z.ltb_spec (k - m_end fr) (m_capacity fr - m_end fr));
          [|lia]. f_equal. lia.
    + exists k. rewrite size_nonfull by done. split; [lia|].
      rewrite to_array_index_cases by (rewrite ?size_nonfull; done || lia).
      by rewrite Hf.
Qed.

Lemma to_array_index_bijection_witness :
  (∀ i j k, to_array_index example_full i = Some k →
            to_array_index example_full j = Some k → i = j)
  ∧ (∀ k, 0 ≤ k < size example_full →
          ∃ i, 0 ≤ i < size example_full
               ∧ to_array_index example_full i = Some k).
Proof.
  apply (to_array_index_bijection example_full).
  exact well_formed_example_full.
Defined.

(** ** [dump] returns *)

Lemma well_formed_log ins fr : well_formed fr → well_formed (log ins fr).
Proof.
  intros Hw. unfold log.
  pose proof (well_formed_insert_c_api (m_source ins.1) (m_line ins.1)
                (m_function ins.1) fr Hw) as H.
  destruct (insert_c_api _ _ _ fr) as [[buffer buffer_sz] fr'].
  by apply well_formed_snprintf.
Qed.

Lemma well_formed_log_all l fr : well_formed fr → well_formed (log_all l fr).
Proof.
  intros Hw. induction l as [|ins l IH] using rev_ind; [done|].
  rewrite log_all_snoc. by apply well_formed_log.
Qed.

(** A recorder that its constructor returned for messages of
    [message_sz > 0] bytes, the size [C * message_sz] of the arena fitting
    in 64 bits, stays well formed under insertions, so that [dump] never
    takes the fatal path of [to_array_index]: after [N] insertions it
    returns, having printed its header ("empty" when nothing was
    inserted) and [min (min N C) m] lines for the bound [m]. *)
Theorem dump_returns (C message_sz m : Z) (fr : t)
    (l : list (Entry * string)) :
  0 < C → 0 < message_sz → C * message_sz < 2 ^ 64 →
  ctor C message_sz = Some fr → 0 ≤ m →
  let N := Z.of_nat (length l) in
  let num := Z.min (Z.min N C) m in
  ∃ ls, dump m (log_all l fr)
        = Ok (Header (if N =? 0 then None else Some num) :: ls)
        ∧ Z.of_nat (length ls) = num.
Proof.
  intros HC Hmsz Harena H Hm N num.
  destruct (ctor_fresh C message_sz fr HC H) as (HC' & Hcap & Hend & Hfull).
  assert (Hw : well_formed (log_all l fr)).
  { apply well_formed_log_all.
    exact (well_formed_ctor C message_sz fr HC H). }
  assert (Hsz : size (log_all l fr) = Z.min N C).
  { apply follows_size; [lia | lia |].
    apply (follows_log_all C 0 l fr); [lia | lia |].
    exact (follows_ctor C message_sz fr HC H). }
  destruct (dump_well_formed m _ Hw Hm) as (ls & Hd & Hlen).
  exists ls. rewrite Hd, Hsz. split; [|lia].
  destruct (Z.eqb_spec N 0) as [E|E].
  - rewrite E. replace (Z.min 0 C) with 0 by lia. done.
  - destruct (Z.eqb_spec (Z.min N C) 0); [lia | done].
Qed.

Lemma dump_returns_witness :
  let N := Z.of_nat (length five) in
  let num := Z.min (Z.min N 3) 2 in
  ∃ ls, dump 2 (log_all five example_fresh)
        = Ok (Header (if N =? 0 then None else Some num) :: ls)
        ∧ Z.of_nat (length ls) = num.
Proof.
  apply (dump_returns 3 16 2 example_fresh five);
    [lia | lia | lia | reflexivity | lia].
Defined.


Lemma length_substring_le n s : (String.length (substring 0 n s) ≤ n)%nat.
Proof.
  revert s. induction n as [|n IH]; intros s.
  - destruct s; simpl; lia.
  - destruct s as [|c s]; simpl; [lia|]. specialize (IH s). lia.
Qed.

(** ** The C API *)

Lemma FR_disabled source line function text g :
  g_flight_recorder_enabled g = false → FR source line function text g = g.
Proof. intros H. unfold FR, flight_recorder_insert. by rewrite H. Qed.

Lemma FR_enabled source line function text g :
  g_flight_recorder_enabled g = true →
  FR source line function text g
  = {| g_flight_recorder :=
         log ({| m_source := source; m_line := line;
                 m_function := function |}, text) (g_flight_recorder g);
       g_flight_recorder_enabled := true |}.
Proof.
  intros H. unfold FR, flight_recorder_insert, log. rewrite H. simpl.
  reflexivity.
Qed.

Lemma FR_all_disabled calls g :
  g_flight_recorder_enabled g = false → FR_all calls g = g.
Proof.
  intros H. unfold FR_all. induction calls as [|c calls IH]; [done|].
  simpl. by rewrite FR_disabled.
Qed.

Lemma FR_all_enabled calls g :
  g_flight_recorder_enabled g = true →
  FR_all calls g
  = {| g_flight_recorder := log_all calls (g_flight_recorder g);
       g_flight_recorder_enabled := true |}.
Proof.
  unfold FR_all, log_all. revert g.
  induction calls as [|c calls IH]; intros g H; simpl.
  - destruct g. simpl in H. by rewrite H.
  - rewrite FR_enabled by done. rewrite IH by done. simpl.
    by destruct c as [[] ?].
Qed.

(** The macro [FR] through the switch of the C API. While the recorder is
    disabled, uses of [FR] change nothing; once it is enabled on a
    recorder that its constructor returned (with an arena whose size
    [C * message_sz] fits in 64 bits, as the one of the singleton does),
    [flight_recorder_dump_n] prints, of the [N] uses of [FR] since, the
    last [min (min N C) n], oldest first and numbered down to 0, each
    text cut to [message_sz - 1] characters. *)
Theorem FR_through_the_switch (C message_sz n : Z) (fr : t)
    (calls : list (Entry * string)) :
  0 < C → 0 < message_sz → C * message_sz < 2 ^ 64 →
  ctor C message_sz = Some fr → 0 ≤ n < 2 ^ 64 →
  let off := {| g_flight_recorder := fr;
                g_flight_recorder_enabled := false |} in
  let N := Z.of_nat (length calls) in
  let num := Z.min (Z.min N C) n in
  FR_all calls off = off
  ∧ flight_recorder_dump_n n (FR_all calls (flight_recorder_enable true off))
    = Ok (Header (if N =? 0 then None else Some num)
          :: lines_of (num - 1) (stored message_sz <$> last_n num calls)).
Proof.
  intros HC Hm Harena H Hn off N num. split; [by apply FR_all_disabled|].
  destruct (ctor_Some _ _ _ HC H) as [HC' _].
  rewrite FR_all_enabled by done. unfold flight_recorder_dump_n. simpl.
  pose proof (holds_log_all C message_sz calls fr HC Hm H) as Hh.
  assert (Hsz : size (log_all calls fr) = Z.min N C).
  { destruct Hh as (Hfol & _). apply follows_size; (lia || done). }
  rewrite (dump_holds C message_sz calls _ n) by (lia || done).
  rewrite Hsz. fold num.
  destruct (Z.eqb_spec N 0) as [E|E].
  - replace (Z.min N C) with 0 by lia. done.
  - destruct (Z.eqb_spec (Z.min N C) 0); [lia | done].
Qed.

Lemma FR_through_the_switch_witness :
  let off := {| g_flight_recorder := example_fresh;
                g_flight_recorder_enabled := false |} in
  let N := Z.of_nat (length five) in
  let num := Z.min (Z.min N 3) 10 in
  FR_all five off = off
  ∧ flight_recorder_dump_n 10 (FR_all five (flight_recorder_enable true off))
    = Ok (Header (if N =? 0 then None else Some num)
          :: lines_of (num - 1) (stored 16 <$> last_n num five)).
Proof.
  apply (FR_through_the_switch 3 16 10 example_fresh five);
    [lia | lia | lia | reflexivity | lia].
Defined.

End FlightRecorderFacts.

(** * Properties of the reachability index, the watch set and the session *)

Module GcTracingFacts.
Import FlightRecorder FlightRecorderSpec FlightRecorderFacts.
Import GcTracing GcTracingSpec.

Ltac split_conj := repeat match goal with |- _ ∧ _ => split end.

Local Arguments to_uint64 : simpl never.
Local Arguments to_uint32 : simpl never.
Local Arguments fmt_p : simpl never.
Local Arguments fmt_d : simpl never.

(** ** The fields of a state after an update *)

Lemma g_targets_set_targets f s : g_targets (set_targets f s) = f (g_targets s).
Proof. reflexivity. Qed.
Lemma g_recording_set_targets f s :
  g_recording (set_targets f s) = g_recording s.
Proof. reflexivity. Qed.
Lemma g_index_set_targets f s : g_index (set_targets f s) = g_index s.
Proof. reflexivity. Qed.
Lemma recorder_set_targets f s : recorder (set_targets f s) = recorder s.
Proof. reflexivity. Qed.
Lemma trace_set_targets f s : trace (set_targets f s) = trace s.
Proof. reflexivity. Qed.
Lemma g_targets_set_recording b s : g_targets (set_recording b s) = g_targets s.
Proof. reflexivity. Qed.
Lemma g_recording_set_recording b s : g_recording (set_recording b s) = b.
Proof. reflexivity. Qed.
Lemma g_index_set_recording b s : g_index (set_recording b s) = g_index s.
Proof. reflexivity. Qed.
Lemma recorder_set_recording b s : recorder (set_recording b s) = recorder s.
Proof. reflexivity. Qed.
Lemma trace_set_recording b s : trace (set_recording b s) = trace s.
Proof. reflexivity. Qed.
Lemma g_targets_set_index f s : g_targets (set_index f s) = g_targets s.
Proof. reflexivity. Qed.
Lemma g_recording_set_index f s : g_recording (set_index f s) = g_recording s.
Proof. reflexivity. Qed.
Lemma g_index_set_index f s : g_index (set_index f s) = f (g_index s).
Proof. reflexivity. Qed.
Lemma recorder_set_index f s : recorder (set_index f s) = recorder s.
Proof. reflexivity. Qed.
Lemma trace_set_index f s : trace (set_index f s) = trace s.
Proof. reflexivity. Qed.
Lemma g_targets_set_recorder f s : g_targets (set_recorder f s) = g_targets s.
Proof. reflexivity. Qed.
Lemma g_recording_set_recorder f s :
  g_recording (set_recorder f s) = g_recording s.
Proof. reflexivity. Qed.
Lemma g_index_set_recorder f s : g_index (set_recorder f s) = g_index s.
Proof. reflexivity. Qed.
Lemma recorder_set_recorder f s : recorder (set_recorder f s) = f (recorder s).
Proof. reflexivity. Qed.
Lemma trace_set_recorder f s : trace (set_recorder f s) = trace s.
Proof. reflexivity. Qed.
Lemma g_targets_emit ls s : g_targets (emit ls s) = g_targets s.
Proof. reflexivity. Qed.
Lemma g_recording_emit ls s : g_recording (emit ls s) = g_recording s.
Proof. reflexivity. Qed.
Lemma g_index_emit ls s : g_index (emit ls s) = g_index s.
Proof. reflexivity. Qed.
Lemma recorder_emit ls s : recorder (emit ls s) = recorder s.
Proof. reflexivity. Qed.
Lemma trace_emit ls s : trace (emit ls s) = trace s ++ ls.
Proof. reflexivity. Qed.

Create Rewrite HintDb state.
#[local] Hint Rewrite
  g_targets_set_targets g_recording_set_targets g_index_set_targets
  recorder_set_targets trace_set_targets g_targets_set_recording
  g_recording_set_recording g_index_set_recording recorder_set_recording
  trace_set_recording g_targets_set_index g_recording_set_index
  g_index_set_index recorder_set_index trace_set_index
  g_targets_set_recorder g_recording_set_recorder g_index_set_recorder
  recorder_set_recorder trace_set_recorder g_targets_emit g_recording_emit
  g_index_emit recorder_emit trace_emit
  : state.

Ltac fields :=
  unfold modify, FR_, break_into_debugger; autorewrite with state.
Ltac fields_in H :=
  unfold modify, FR_, break_into_debugger in H; autorewrite with state in H.

(** ** The event log leaves the globals of gc-tracing.cpp alone *)

Lemma g_index_FR_ line fn text s : g_index (FR_ line fn text s) = g_index s.
Proof. reflexivity. Qed.
Lemma g_targets_FR_ line fn text s :
  g_targets (FR_ line fn text s) = g_targets s.
Proof. reflexivity. Qed.
Lemma g_recording_FR_ line fn text s :
  g_recording (FR_ line fn text s) = g_recording s.
Proof. reflexivity. Qed.
Lemma trace_FR_ line fn text s : trace (FR_ line fn text s) = trace s.
Proof. reflexivity. Qed.

(** ** No recording, no effect *)

(** Claim C10. While no session is recording, every callback of the
    collector (root, frame-to-object, task-to-frame, frame-to-frame, array,
    module binding and its globalref variant, field, internal, hidden)
    returns, and leaves the reachability index and the watch set as they
    were; it prints nothing either. *)
Theorem callback_not_recording (h : Host) (fuel : nat) (cb : Callback)
    (s : State) :
  g_recording s = false →
  ∃ s', callback h fuel cb s = Ok s'
        ∧ g_index s' = g_index s ∧ g_targets s' = g_targets s
        ∧ g_recording s' = false ∧ trace s' = trace s.
Proof.
  intros Hrec.
  destruct cb; unfold callback, gc_record_root,
    gc_record_frame_to_object_edge, gc_record_task_to_frame_edge,
    gc_record_frame_to_frame_edge, gc_record_array_edge,
    gc_record_module_edge_globalref, gc_record_module_edge,
    gc_record_object_edge, gc_record_internal_edge, gc_record_hidden_edge;
    cbv zeta; rewrite ?g_recording_FR_, Hrec; cbn [negb orb];
    eexists; (split; [reflexivity|]); done.
Qed.


(** ** A null root *)

(** Claim C9. [gc_record_root] called with a null pointer returns without
    creating a node in the reachability index and without touching the
    watch set; nothing is printed. (The call is still logged by the flight
    recorder when that is enabled: [FR] precedes the test.) *)
Theorem gc_record_root_null (fuel : nat) (name : string) (s : State) :
  ∃ s', gc_record_root fuel 0 name s = Ok s'
        ∧ g_index s' = g_index s ∧ g_targets s' = g_targets s
        ∧ g_recording s' = g_recording s ∧ trace s' = trace s.
Proof.
  unfold gc_record_root. cbv zeta. rewrite g_recording_FR_.
  change (0 =? 0) with true. rewrite orb_true_r.
  eexists. split; [reflexivity|]. done.
Qed.

(** ** The walk to the root *)

Lemma chain_step_root index i o :
  m_type_ref o = ROOT →
  chain_step index i o = Ok (chain_line i HeadRoot o, None).
Proof.
  intros H. unfold chain_step, chain_line. rewrite H.
  destruct (decide (ROOT = ROOT)); done.
Qed.

Lemma chain_step_none index i o :
  m_type_ref o ≠ ROOT → m_parent o = None →
  chain_step index i o = Ok (chain_line i HeadUnknown o, None).
Proof.
  intros H Hp. unfold chain_step, chain_line. rewrite Hp.
  destruct (decide (m_type_ref o = ROOT)); done.
Qed.

Lemma chain_step_parent index i o p parent :
  m_type_ref o ≠ ROOT → m_parent o = Some p → index !! p = Some parent →
  chain_step index i o
  = Ok (chain_line i (HeadParent (m_pointer parent)) o, Some parent).
Proof.
  intros H Hp Hl. unfold chain_step, chain_line. rewrite Hp, Hl.
  destruct (decide (m_type_ref o = ROOT)); done.
Qed.

Lemma ends_dump index o n :
  ends index o n →
  ∀ fuel i, (n < fuel)%nat →
  ∃ ls, dump_ancestor_chain_from fuel index i o = Ok ls ∧ length ls = S n.
Proof.
  induction 1 as [o Hr | o Hr Hp | o p parent n Hr Hp Hl He IH];
    intros fuel i Hf; (destruct fuel as [|fuel]; [lia|]); simpl.
  - rewrite chain_step_root by done. simpl. eauto.
  - rewrite chain_step_none by done. simpl. eauto.
  - rewrite (chain_step_parent _ _ _ p parent) by done. simpl.
    destruct (IH fuel (i + 1) ltac:(lia)) as (ls & -> & Hlen). simpl.
    eexists. split; [reflexivity|]. simpl. by rewrite Hlen.
Qed.

(** Claim C8. From a node whose chain of parent pointers reaches, after
    [n] nodes, a node of kind [ROOT] or a node without parent,
    [dump_ancestor_chain] returns (with any fuel above [n]) after printing
    [n + 1] lines. A node of kind [ROOT] ends the walk whatever its parent
    pointer is: one line, headed <root>, is printed. *)
Theorem dump_ancestor_chain_terminates (index : gmap Z Object) (o : Object)
    (n : nat) :
  ends index o n →
  (∀ fuel, (n < fuel)%nat →
     ∃ ls, dump_ancestor_chain fuel index o = Ok ls ∧ length ls = S n)
  ∧ (m_type_ref o = ROOT →
     ∀ fuel, dump_ancestor_chain (S fuel) index o
             = Ok [chain_line 0 HeadRoot o]).
Proof.
  intros He. split.
  - intros fuel Hf. by apply ends_dump.
  - intros Hr fuel. unfold dump_ancestor_chain. simpl.
    by rewrite chain_step_root.
Qed.

Lemma ends_looped_field : ends looped_index looped_field 1.
Proof.
  apply (ends_step _ _ 1 looped_root); [done | done | done |].
  by apply ends_root.
Qed.

Lemma dump_ancestor_chain_terminates_witness :
  (∀ fuel, (1 < fuel)%nat →
     ∃ ls, dump_ancestor_chain fuel looped_index looped_field = Ok ls
           ∧ length ls = 2%nat)
  ∧ (m_type_ref looped_field = ROOT →
     ∀ fuel, dump_ancestor_chain (S fuel) looped_index looped_field
             = Ok [chain_line 0 HeadRoot looped_field]).
Proof.
  apply (dump_ancestor_chain_terminates looped_index looped_field 1).
  exact ends_looped_field.
Defined.

(** The walk from the field of the cyclic example stops at the root. *)
Example dump_looped_field :
  dump_ancestor_chain 2 looped_index looped_field
  = Ok [OutChain 0 (HeadParent 1) "x" (Some 3) 2;
        OutChain 1 HeadRoot "main" None 1].
Proof. reflexivity. Qed.

(** Without a root or a missing parent on the way the walk has no end: a
    node that is its own parent, and not a root, exhausts any fuel. *)
Lemma self_parent_diverges index o fuel i :
  m_type_ref o ≠ ROOT → m_parent o = Some (m_pointer o) →
  index !! m_pointer o = Some o →
  dump_ancestor_chain_from fuel index i o = OutOfFuel.
Proof.
  intros Hr Hp Hl. revert i. induction fuel as [|fuel IH]; intros i; simpl.
  - reflexivity.
  - rewrite (chain_step_parent _ _ _ _ o) by done. simpl.
    by rewrite IH.
Qed.


(** ** A report that creates a node *)

Lemma recorder_ok_FR_ line fn text s :
  recorder_ok (recorder s) → recorder_ok (recorder (FR_ line fn text s)).
Proof. intros H. unfold recorder_ok, FR_. simpl. by apply well_formed_FR. Qed.

Lemma enabled_FR_ line fn text s :
  g_flight_recorder_enabled (recorder (FR_ line fn text s))
  = g_flight_recorder_enabled (recorder s).
Proof. unfold FR_. simpl. apply enabled_FR. Qed.

Lemma flight_recorder_dump_n_ok n g :
  recorder_ok g → 0 ≤ n →
  ∃ ls, flight_recorder_dump_n n g = Ok ls
        ∧ Z.of_nat (length ls) = 1 + Z.min (size (g_flight_recorder g)) n.
Proof.
  intros Hok Hn. destruct (dump_well_formed n _ Hok Hn) as (ls & Hd & Hlen).
  unfold flight_recorder_dump_n. rewrite Hd. eexists. split; [reflexivity|].
  simpl length. lia.
Qed.

Lemma find_parent_found this from s x :
  g_index s !! from = Some x →
  find_parent this from s = Ok (modify this (set_m_parent (Some from)) s).
Proof. intros H. unfold find_parent. by rewrite H. Qed.

Lemma find_parent_missing this from s o ls :
  g_index s !! from = None → g_index s !! this = Some o →
  flight_recorder_dump_n 128 (recorder s) = Ok ls →
  find_parent this from s
  = Ok (emit [Trap]
          (emit [OutCannotFindParent (m_pointer o)]
             (emit (OutFlightRecorder <$> ls) s))).
Proof.
  intros Hf Ht Hd. unfold find_parent, STOP_AND_DEBUG. rewrite Hf, Hd.
  simpl. by rewrite Ht.
Qed.

(** The lookup of [from] once the node of [to] is in the index. *)
Lemma lookup_from_found (index : gmap Z Object) from to o :
  from = to ∨ is_Some (index !! from) →
  is_Some (<[to := o]> index !! from).
Proof.
  intros [->|Hs]; [rewrite lookup_insert_eq; eauto|].
  rewrite lookup_insert. case_decide; eauto.
Qed.

Lemma lookup_from_missing (index : gmap Z Object) from to o :
  ¬ (from = to ∨ is_Some (index !! from)) →
  <[to := o]> index !! from = None.
Proof.
  intros Hn. rewrite lookup_insert_ne by (intros ->; tauto).
  destruct (index !! from) eqn:E; [|done]. exfalso. eauto.
Qed.

Ltac enter_record Hrec Hnew :=
  unfold callback, gc_record_root, gc_record_frame_to_object_edge,
    gc_record_task_to_frame_edge, gc_record_frame_to_frame_edge,
    gc_record_array_edge, gc_record_module_edge_globalref,
    gc_record_object_edge;
  cbv zeta; rewrite ?Hrec; cbn [negb orb];
  unfold gc_record_module_edge; cbv zeta;
  rewrite ?g_recording_FR_, ?Hrec; cbn [negb orb];
  unfold emplace; rewrite g_index_FR_, Hnew; cbn [negb];
  unfold set_parent_frame, set_parent_task, set_parent_array,
    set_parent_module, set_parent_field; cbv zeta.

(** The state after the two [FR] and the [emplace] of a callback, known
    by its fields only. *)
Ltac after_emplace to s Hok S0 :=
  match goal with
  | |- context [FR_ ?l2 ?fn ?text (set_index ?f ?s0)] =>
      set (S0 := FR_ l2 fn text (set_index f s0)) in *;
      assert (g_index S0 = <[to := Object_ctor to]> (g_index s))
        as Hindex0 by reflexivity;
      assert (g_targets S0 = g_targets s) as Htargets0 by reflexivity;
      assert (g_recording S0 = g_recording s) as Hrecording0 by reflexivity;
      assert (trace S0 = trace s) as Htrace0 by reflexivity;
      assert (recorder_ok (recorder S0)) as Hok0
        by (repeat apply recorder_ok_FR_; exact Hok);
      assert (g_flight_recorder_enabled (recorder S0)
              = g_flight_recorder_enabled (recorder s)) as Henabled0
        by (subst S0; fields; rewrite !enabled_FR; reflexivity);
      clearbody S0
  end.

Ltac finish_record ls :=
  cbn [res_bind]; eexists; exists ls; (split; [reflexivity|]);
  fields;
  unfold parent_of, parent_missing, edge_from, debug_lines, stop_lines,
    new_node;
  cbn [fst snd];
  match goal with
  | Hindex0 : g_index _ = _, Htargets0 : g_targets _ = _,
    Hrecording0 : g_recording _ = _, Htrace0 : trace _ = _,
    Henabled0 : g_flight_recorder_enabled _ = _ |- _ =>
      rewrite ?Hindex0, ?Htargets0, ?Hrecording0, ?Htrace0, ?Henabled0
  end;
  rewrite ?alter_insert_eq;
  repeat first [rewrite decide_True by done
               | rewrite decide_False by done
               | rewrite bool_decide_eq_true_2 by done
               | rewrite bool_decide_eq_false_2 by tauto];
  rewrite <- ?app_assoc; cbn [app]; rewrite ?app_nil_r;
  split_conj; try assumption; try reflexivity.

Ltac record_edge from to s ls :=
  match goal with
  | Hindex0 : g_index ?S0 = _,
    Hd : flight_recorder_dump_n 128 (recorder ?S0) = Ok ls
    |- context [find_parent to from ?s2] =>
      let Hf := fresh "Hf" in
      destruct (decide (from = to ∨ is_Some (g_index s !! from))) as [Hf|Hf];
      [ let x := fresh "x" in let Hx := fresh "Hx" in
        assert (is_Some (g_index s2 !! from)) as [x Hx]
          by (fields; rewrite Hindex0, ?alter_insert_eq;
              by apply lookup_from_found);
        rewrite (find_parent_found _ _ _ x Hx)
      | let Hd2 := fresh "Hd2" in
        assert (Hd2 : flight_recorder_dump_n 128 (recorder s2) = Ok ls)
          by (fields; exact Hd);
        rewrite (find_parent_missing to from s2 _ _
                   ltac:(fields; rewrite Hindex0, ?alter_insert_eq;
                         by apply lookup_from_missing)
                   ltac:(fields; rewrite Hindex0, ?alter_insert_eq;
                         apply lookup_insert_eq) Hd2);
        clear Hd2 ];
      finish_record ls
  end.

(** A report that names a new identity while a session records: the node
    that it creates, what it prints before the watch set is consulted, and
    whether the watch set is consulted at all. *)
Lemma record_new h fuel cb to s r :
  g_recording s = true → reported cb = Some to → null_report cb = false →
  g_index s !! to = None → recorder_ok (recorder s) →
  resolution h fuel cb = Ok r →
  ∃ s1 ls,
    callback h fuel cb s
    = (if checks_target cb then target_found fuel to s1 else Ok s1)
    ∧ created cb to r s s1 ls.
Proof.
  intros Hrec Hrep Hnull Hnew Hok Hres. unfold created.
  destruct cb as [root name | from to' | from to' | from to' | from to' index
                 | from to' name | from to' name | from to' slot
                 | from to' | from bytes];
    simpl in Hrep; try discriminate; injection Hrep as ->;
    simpl in Hnull.
  - enter_record Hrec Hnew. rewrite Hnull. cbn [negb orb].
    after_emplace to s Hok S0.
    destruct (flight_recorder_dump_n_ok 128 _ Hok0 ltac:(lia)) as (ls & Hd & _).
    unfold set_root. finish_record ls.
  - enter_record Hrec Hnew. after_emplace to s Hok S0.
    destruct (flight_recorder_dump_n_ok 128 _ Hok0 ltac:(lia)) as (ls & Hd & _).
    record_edge from to s ls.
  - enter_record Hrec Hnew. after_emplace to s Hok S0.
    destruct (flight_recorder_dump_n_ok 128 _ Hok0 ltac:(lia)) as (ls & Hd & _).
    record_edge from to s ls.
  - enter_record Hrec Hnew. after_emplace to s Hok S0.
    destruct (flight_recorder_dump_n_ok 128 _ Hok0 ltac:(lia)) as (ls & Hd & _).
    record_edge from to s ls.
  - enter_record Hrec Hnew. after_emplace to s Hok S0.
    destruct (flight_recorder_dump_n_ok 128 _ Hok0 ltac:(lia)) as (ls & Hd & _).
    record_edge from to s ls.
  - enter_record Hrec Hnew. after_emplace to s Hok S0.
    destruct (flight_recorder_dump_n_ok 128 _ Hok0 ltac:(lia)) as (ls & Hd & _).
    record_edge from to s ls.
  - enter_record Hrec Hnew. rewrite Hnull. after_emplace to s Hok S0.
    destruct (flight_recorder_dump_n_ok 128 _ Hok0 ltac:(lia)) as (ls & Hd & _).
    record_edge from to s ls.
  - enter_record Hrec Hnew. after_emplace to s Hok S0.
    destruct (flight_recorder_dump_n_ok 128 _ Hok0 ltac:(lia)) as (ls & Hd & _).
    unfold resolution in Hres. rewrite Hres. cbn [res_bind].
    destruct r as [[field_index0 fname] [|]].
    + record_edge from to s ls.
    + record_edge from to s ls.
Qed.


(** ** A report that names a known identity *)

(** The second and later reports of an identity change nothing but the
    event log. *)
Lemma record_known h fuel cb to n s :
  reported cb = Some to → g_index s !! to = Some n →
  ∃ s', callback h fuel cb s = Ok s' ∧ inert s s'.
Proof.
  intros Hrep Hknown. unfold inert.
  destruct cb as [root name | from to' | from to' | from to' | from to' index
                 | from to' name | from to' name | from to' slot
                 | from to' | from bytes];
    simpl in Hrep; try discriminate; injection Hrep as ->;
    unfold callback, gc_record_root, gc_record_frame_to_object_edge,
      gc_record_task_to_frame_edge, gc_record_frame_to_frame_edge,
      gc_record_array_edge, gc_record_module_edge_globalref,
      gc_record_module_edge, gc_record_object_edge;
    cbv zeta; rewrite ?g_recording_FR_;
    destruct (g_recording s) eqn:Hrec; cbn [negb orb];
    try destruct (to =? 0); cbn [negb orb];
    rewrite ?g_recording_FR_, ?Hrec; cbn [negb orb];
    unfold emplace; rewrite ?g_index_FR_, ?Hknown; cbn [negb];
    (eexists; split; [reflexivity|]);
    split_conj;
    try done; try apply enabled_FR_; try apply recorder_ok_FR_.
Qed.

(** ** The watch set *)

Lemma target_found_not_watched fuel candidate s :
  candidate ∉ g_targets s → target_found fuel candidate s = Ok s.
Proof. intros H. unfold target_found. by rewrite decide_False. Qed.

Lemma target_found_watched fuel candidate s item chain :
  candidate ∈ g_targets s → g_index s !! candidate = Some item →
  dump_ancestor_chain fuel (g_index s) item = Ok chain →
  target_found fuel candidate s
  = Ok (set_targets (λ t, t ∖ {[candidate]})
          (emit (chain ++ [OutBlank])
             (emit [OutTargetFound (m_pointer item)] s))).
Proof.
  intros Hin Hl Hc. unfold target_found. rewrite decide_True by done.
  rewrite Hl. simpl. by rewrite Hc.
Qed.

(** What [target_found] does when it returns. *)
Lemma target_found_Ok fuel candidate s s' :
  target_found fuel candidate s = Ok s' →
  g_index s' = g_index s ∧ g_recording s' = g_recording s
  ∧ recorder s' = recorder s
  ∧ (((candidate ∉ g_targets s) ∧ s' = s)
     ∨ (candidate ∈ g_targets s
        ∧ ∃ item chain,
            g_index s !! candidate = Some item
            ∧ dump_ancestor_chain fuel (g_index s) item = Ok chain
            ∧ trace s'
              = trace s ++ [OutTargetFound (m_pointer item)] ++ chain
                ++ [OutBlank]
            ∧ g_targets s' = g_targets s ∖ {[candidate]})).
Proof.
  unfold target_found. destruct (decide (candidate ∈ g_targets s)) as [Hin|Hin].
  - destruct (g_index s !! candidate) as [item|] eqn:Hl; [|done]. simpl.
    destruct (dump_ancestor_chain fuel (g_index s) item) as [chain| |] eqn:Hc;
      simpl; [|done|done].
    intros [= <-]. simpl. repeat split. right. split; [done|].
    exists item, chain. repeat split; try done.
    by rewrite <- !app_assoc.
  - intros [= <-]. repeat split. left. done.
Qed.

(** The lines of a chain are no reports of targets. *)
Lemma chain_step_line index i o l next :
  chain_step index i o = Ok (l, next) → ∃ head, l = chain_line i head o.
Proof.
  unfold chain_step, chain_line.
  destruct (decide (m_type_ref o = ROOT)); [intros [= <- _]; eauto|].
  destruct (m_parent o) as [p|]; [|intros [= <- _]; eauto].
  destruct (index !! p); [intros [= <- _]; eauto | done].
Qed.

Lemma reports_app p ls1 ls2 :
  reports p (ls1 ++ ls2) = (reports p ls1 + reports p ls2)%nat.
Proof.
  induction ls1 as [|o ls1 IH]; [done|].
  destruct o; simpl; rewrite IH; lia.
Qed.

Lemma reports_chain p fuel index i o ls :
  dump_ancestor_chain_from fuel index i o = Ok ls → reports p ls = 0%nat.
Proof.
  revert i o ls. induction fuel as [|fuel IH]; intros i o ls; simpl; [done|].
  destruct (chain_step index i o) as [[l next]| |] eqn:Hs; simpl;
    [|done|done].
  destruct (chain_step_line _ _ _ _ _ Hs) as [head ->].
  destruct next as [parent|]; [|by intros [= <-]].
  destruct (dump_ancestor_chain_from fuel index (i + 1) parent) as [ls'| |]
    eqn:Hd; simpl; [|done|done].
  intros [= <-]. simpl. by eapply IH.
Qed.

Lemma reports_fmap_recorder p (ls : list Line) :
  reports p (OutFlightRecorder <$> ls) = 0%nat.
Proof. induction ls as [|l ls IH]; [done|]. simpl. exact IH. Qed.

Lemma reports_diag p cb r to ls (b : bool) :
  reports p (debug_lines cb r ++ (if b then stop_lines to ls else []))
  = 0%nat.
Proof.
  rewrite reports_app.
  assert (reports p (debug_lines cb r) = 0%nat) as ->.
  { unfold debug_lines. destruct cb; try done. by destruct r.2. }
  destruct b; [|done]. unfold stop_lines.
  by rewrite reports_app, reports_fmap_recorder.
Qed.


(** ** Every call, by cases *)

Ltac unfold_callbacks :=
  unfold callback, gc_record_root, gc_record_frame_to_object_edge,
    gc_record_task_to_frame_edge, gc_record_frame_to_frame_edge,
    gc_record_array_edge, gc_record_module_edge_globalref,
    gc_record_module_edge, gc_record_object_edge, gc_record_internal_edge,
    gc_record_hidden_edge;
  cbv zeta.

Ltac close_inert :=
  unfold inert; (eexists; split; [reflexivity|]);
  split_conj;
  try done; try apply enabled_FR_; try apply recorder_ok_FR_.

Lemma callback_idle h fuel cb s :
  g_recording s = false → ∃ s', callback h fuel cb s = Ok s' ∧ inert s s'.
Proof.
  intros Hrec. destruct cb; unfold_callbacks;
    rewrite ?g_recording_FR_, Hrec; cbn [negb orb]; close_inert.
Qed.

Lemma callback_null h fuel cb s :
  null_report cb = true → ∃ s', callback h fuel cb s = Ok s' ∧ inert s s'.
Proof.
  intros Hnull. destruct cb; simpl in Hnull; try discriminate;
    unfold_callbacks; rewrite ?g_recording_FR_, Hnull, orb_true_r;
    close_inert.
Qed.

Lemma callback_unreported h fuel cb s :
  reported cb = None → ∃ s', callback h fuel cb s = Ok s' ∧ inert s s'.
Proof.
  intros Hrep. destruct cb; simpl in Hrep; try discriminate;
    unfold_callbacks; rewrite ?g_recording_FR_;
    destruct (g_recording s); cbn [negb]; close_inert.
Qed.

(** A field edge whose resolution does not return does not return. *)
Lemma record_unresolved h fuel cb to s s' :
  g_recording s = true → reported cb = Some to → g_index s !! to = None →
  callback h fuel cb s = Ok s' → ∃ r, resolution h fuel cb = Ok r.
Proof.
  intros Hrec Hrep Hnew.
  destruct cb as [root name | from to' | from to' | from to' | from to' index
                 | from to' name | from to' name | from to' slot
                 | from to' | from bytes];
    simpl in Hrep; try discriminate; injection Hrep as ->;
    try (intros _; simpl; by eauto).
  enter_record Hrec Hnew. unfold resolution.
  destruct (resolve_field _ _ _ _ _ _ _ _ _) as [r| |]; [eauto|done|done].
Qed.

Lemma resolve_field_abort h fuel :
  ∀ to data byte_offset dt num_levels field_index0 ss why,
    resolve_field h fuel to data byte_offset dt num_levels field_index0 ss
    = Abort why → why = AssertFailed.
Proof.
  induction fuel as [|fuel IH]; intros to data bo dt nl fi0 ss why; simpl;
    [done|].
  destruct (scan_fields h dt bo (Z.to_nat (jl_datatype_nfields h dt)))
    as [fi|]; [|by intros [= <-]].
  destruct (jl_field_isptr h dt fi); [done|].
  destruct (jl_stored_inline h (jl_field_type h dt fi)); [|done].
  apply IH.
Qed.

(** A field edge whose resolution fails fails in the same way. *)
Lemma record_unresolved_abort h fuel cb to s why :
  g_recording s = true → reported cb = Some to → g_index s !! to = None →
  resolution h fuel cb = Abort why → callback h fuel cb s = Abort why.
Proof.
  intros Hrec Hrep Hnew.
  destruct cb as [root name | from to' | from to' | from to' | from to' index
                 | from to' name | from to' name | from to' slot
                 | from to' | from bytes];
    simpl in Hrep; try discriminate; injection Hrep as ->;
    try (simpl; discriminate).
  intros Hres. enter_record Hrec Hnew. unfold resolution in Hres.
  by rewrite Hres.
Qed.

Lemma record_unresolved_fuel h fuel cb to s :
  g_recording s = true → reported cb = Some to → g_index s !! to = None →
  resolution h fuel cb = OutOfFuel → callback h fuel cb s = OutOfFuel.
Proof.
  intros Hrec Hrep Hnew.
  destruct cb as [root name | from to' | from to' | from to' | from to' index
                 | from to' name | from to' name | from to' slot
                 | from to' | from bytes];
    simpl in Hrep; try discriminate; injection Hrep as ->;
    try (simpl; discriminate).
  intros Hres. enter_record Hrec Hnew. unfold resolution in Hres.
  by rewrite Hres.
Qed.

(** Only a field edge has something to resolve. *)
Lemma resolution_fails h fuel cb :
  (∀ r, resolution h fuel cb ≠ Ok r) →
  ∃ from to slot, cb = RecordObject from to slot.
Proof. intros H. destruct cb; simpl in H; try (by eauto); by edestruct H. Qed.

(** A call that returns was inert, or created the node of a new identity
    and then, for the reports that consult the watch set, ran
    [target_found]. *)
Lemma callback_Ok h fuel cb s s' :
  recorder_ok (recorder s) → callback h fuel cb s = Ok s' →
  inert s s'
  ∨ ∃ to r s1 ls,
      g_recording s = true ∧ reported cb = Some to ∧ null_report cb = false
      ∧ g_index s !! to = None ∧ resolution h fuel cb = Ok r
      ∧ created cb to r s s1 ls
      ∧ (if checks_target cb then target_found fuel to s1 else Ok s1) = Ok s'.
Proof.
  intros Hok Hcb.
  destruct (g_recording s) eqn:Hrec.
  2: { left. destruct (callback_idle h fuel cb s Hrec) as (s'' & E & Hi).
       rewrite E in Hcb. by injection Hcb as <-. }
  destruct (null_report cb) eqn:Hnull.
  { left. destruct (callback_null h fuel cb s Hnull) as (s'' & E & Hi).
    rewrite E in Hcb. by injection Hcb as <-. }
  destruct (reported cb) as [to|] eqn:Hrep.
  2: { left. destruct (callback_unreported h fuel cb s Hrep) as (s'' & E & Hi).
       rewrite E in Hcb. by injection Hcb as <-. }
  destruct (g_index s !! to) as [n|] eqn:Hnew.
  { left. destruct (record_known h fuel cb to n s Hrep Hnew) as (s'' & E & Hi).
    rewrite E in Hcb. by injection Hcb as <-. }
  right.
  destruct (record_unresolved h fuel cb to s s' Hrec Hrep Hnew Hcb)
    as [r Hres].
  destruct (record_new h fuel cb to s r Hrec Hrep Hnull Hnew Hok Hres)
    as (s1 & ls & E & Hc).
  exists to, r, s1, ls. rewrite <- E. done.
Qed.


Lemma new_node_pointer cb to r parent :
  reported cb = Some to → m_pointer (new_node cb r parent) = to.
Proof. destruct cb; simpl; congruence. Qed.

Lemma new_node_kind cb r parent :
  m_type_ref (new_node cb r parent) = ROOT → edge_from cb = None.
Proof. destruct cb; simpl; congruence. Qed.

Lemma new_node_parent cb to r parent :
  reported cb = Some to → edge_from cb ≠ None →
  m_parent (new_node cb r parent) = parent.
Proof. destruct cb; simpl; congruence. Qed.

(** A report of a new identity returns when its chain can be walked. *)
Lemma report_returns h fuel cb to s r chain :
  g_recording s = true → reported cb = Some to → null_report cb = false →
  g_index s !! to = None → recorder_ok (recorder s) →
  resolution h fuel cb = Ok r →
  (checks_target cb = true → to ∈ g_targets s →
   dump_ancestor_chain fuel
     (<[to := new_node cb r (parent_of cb to (g_index s))]> (g_index s))
     (new_node cb r (parent_of cb to (g_index s))) = Ok chain) →
  ∃ s' ls, callback h fuel cb s = Ok s'
           ∧ reported_as fuel cb to r ls chain s s'.
Proof.
  intros Hrec Hrep Hnull Hnew Hok Hres Hchain.
  destruct (record_new h fuel cb to s r Hrec Hrep Hnull Hnew Hok Hres)
    as (s1 & ls & E & Hd & Hi & Ht & Hr & Hok1 & Hen & Htr).
  rewrite E. unfold reported_as.
  destruct (checks_target cb) eqn:Hck; simpl.
  - destruct (decide (to ∈ g_targets s)) as [Hin|Hin].
    + rewrite bool_decide_eq_true_2 by done.
      specialize (Hchain eq_refl Hin). rewrite <- Hi in Hchain.
      rewrite (target_found_watched fuel to s1
                 (new_node cb r (parent_of cb to (g_index s))) chain);
        [|by rewrite Ht | by rewrite Hi, lookup_insert_eq | done].
      eexists; exists ls. split; [reflexivity|]. simpl.
      rewrite (new_node_pointer cb to) by done.
      split_conj; try done.
      * rewrite Htr, <- !app_assoc. done.
      * by rewrite Ht.
    + rewrite bool_decide_eq_false_2 by done.
      rewrite target_found_not_watched by (by rewrite Ht).
      exists s1, ls. split; [done|]. rewrite app_nil_r.
      split_conj; done.
  - exists s1, ls. split; [done|]. rewrite app_nil_r.
    split_conj; done.
Qed.

(** Every call that returns, by cases. *)
Lemma callback_report h fuel cb s s' :
  recorder_ok (recorder s) → callback h fuel cb s = Ok s' →
  inert s s'
  ∨ ∃ to r ls chain,
      g_recording s = true ∧ reported cb = Some to ∧ null_report cb = false
      ∧ g_index s !! to = None ∧ resolution h fuel cb = Ok r
      ∧ reported_as fuel cb to r ls chain s s'.
Proof.
  intros Hok Hcb.
  destruct (callback_Ok h fuel cb s s' Hok Hcb)
    as [Hi | (to & r & s1 & ls & Hrec & Hrep & Hnull & Hnew & Hres & Hc & E)];
    [by left | right].
  destruct Hc as (Hd & Hi & Ht & Hr & Hok1 & Hen & Htr).
  assert (Hchain : ∃ chain,
    checks_target cb = true → to ∈ g_targets s →
    dump_ancestor_chain fuel
      (<[to := new_node cb r (parent_of cb to (g_index s))]> (g_index s))
      (new_node cb r (parent_of cb to (g_index s))) = Ok chain).
  { destruct (checks_target cb) eqn:Hck; [|by exists []].
    destruct (decide (to ∈ g_targets s)) as [Hin|Hin]; [|by exists []].
    apply target_found_Ok in E
      as (_ & _ & _ & [[Hn _] | (_ & item & chain & Hl & Hch & _)]).
    - by rewrite Ht in Hn.
    - rewrite Hi, lookup_insert_eq in Hl. injection Hl as <-.
      rewrite Hi in Hch. by exists chain. }
  destruct Hchain as [chain Hchain].
  destruct (report_returns h fuel cb to s r chain Hrec Hrep Hnull Hnew Hok
              Hres Hchain) as (s'' & ls' & E' & Has).
  rewrite Hcb in E'. injection E' as <-.
  exists to, r, ls', chain. done.
Qed.


(** ** What every call preserves *)

Lemma reports_found p to chain fuel index o (found : bool) :
  (found = true → dump_ancestor_chain fuel index o = Ok chain) →
  reports p (if found then [OutTargetFound to] ++ chain ++ [OutBlank] else [])
  = if found && bool_decide (to = p) then 1%nat else 0%nat.
Proof.
  intros Hc. destruct found; [|done]. simpl.
  rewrite reports_app, (reports_chain p _ _ _ _ _ (Hc eq_refl)). simpl.
  case_decide; [by rewrite bool_decide_eq_true_2
               | by rewrite bool_decide_eq_false_2].
Qed.

Lemma callback_effect h fuel cb s s' :
  recorder_ok (recorder s) → callback h fuel cb s = Ok s' →
  recorder_ok (recorder s')
  ∧ g_recording s' = g_recording s
  ∧ g_flight_recorder_enabled (recorder s')
    = g_flight_recorder_enabled (recorder s)
  ∧ (∀ k n, g_index s !! k = Some n → g_index s' !! k = Some n)
  ∧ g_targets s' ⊆ g_targets s
  ∧ (∀ p, is_Some (g_index s !! p) →
          reports p (trace s') = reports p (trace s))
  ∧ (∀ p, (reports p (trace s) ≤ reports p (trace s'))%nat)
  ∧ (∀ p, (reports p (trace s') + unseen p (g_index s')
           ≤ reports p (trace s) + unseen p (g_index s))%nat).
Proof.
  intros Hok Hcb.
  destruct (callback_report h fuel cb s s' Hok Hcb)
    as [(Hi & Ht & Hr & Htr & Hen & Hok')
       | (to & r & ls & chain & Hrec & Hrep & Hnull & Hnew & Hres & Has)].
  - rewrite Hi, Ht, Hr, Htr, Hen. split_conj; auto.
  - destruct Has as (Hi & Hd & Hr & Hok' & Hen & Hch & Htr & Ht).
    assert (Hrp : ∀ p, reports p (trace s')
                       = (reports p (trace s)
                          + if checks_target cb
                               && bool_decide (to ∈ g_targets s)
                               && bool_decide (to = p)
                            then 1 else 0)%nat).
    { intros p. rewrite Htr, reports_app, reports_app, reports_diag.
      by rewrite (reports_found p to chain fuel _ _ _ Hch). }
    split_conj; try done.
    + congruence.
    + intros k n Hk. rewrite Hi, lookup_insert_ne; [done | congruence].
    + rewrite Ht. destruct (_ && _); [|done].
      by apply subseteq_difference_l.
    + intros p [n Hp]. rewrite Hrp.
      rewrite (bool_decide_eq_false_2 (to = p)) by congruence.
      rewrite andb_false_r. lia.
    + intros p. rewrite Hrp. lia.
    + intros p. rewrite Hrp, Hi. unfold unseen.
      destruct (decide (to = p)) as [->|Hne].
      * rewrite lookup_insert_eq, Hnew.
        rewrite (bool_decide_eq_true_2 (p = p)), andb_true_r by done.
        destruct (_ && _); lia.
      * rewrite lookup_insert_ne by done.
        rewrite (bool_decide_eq_false_2 (to = p)) by done.
        rewrite andb_false_r. lia.
Qed.

Lemma jl_gc_collect_effect h fuel calls :
  ∀ s s', recorder_ok (recorder s) → jl_gc_collect h fuel calls s = Ok s' →
  recorder_ok (recorder s')
  ∧ g_recording s' = g_recording s
  ∧ g_flight_recorder_enabled (recorder s')
    = g_flight_recorder_enabled (recorder s)
  ∧ (∀ k n, g_index s !! k = Some n → g_index s' !! k = Some n)
  ∧ g_targets s' ⊆ g_targets s
  ∧ (∀ p, is_Some (g_index s !! p) →
          reports p (trace s') = reports p (trace s))
  ∧ (∀ p, (reports p (trace s) ≤ reports p (trace s'))%nat)
  ∧ (∀ p, (reports p (trace s') + unseen p (g_index s')
           ≤ reports p (trace s) + unseen p (g_index s))%nat).
Proof.
  induction calls as [|cb calls IH]; intros s s' Hok; simpl.
  - intros [= <-]. split_conj; auto.
  - destruct (callback h fuel cb s) as [s1| |] eqn:Hcb; simpl; [|done|done].
    intros Hrest.
    destruct (callback_effect h fuel cb s s1 Hok Hcb)
      as (Hok1 & Hr1 & He1 & Hi1 & Ht1 & Hk1 & Hm1 & Hp1).
    destruct (IH s1 s' Hok1 Hrest)
      as (Hok2 & Hr2 & He2 & Hi2 & Ht2 & Hk2 & Hm2 & Hp2).
    split_conj; try done;
      try congruence.
    + eauto.
    + by etrans.
    + intros p Hp. rewrite Hk2, Hk1; [done | done |].
      destruct Hp as [n Hn]. eauto.
    + intros p. specialize (Hm1 p). specialize (Hm2 p). lia.
    + intros p. specialize (Hp1 p). specialize (Hp2 p). lia.
Qed.

(** Splitting a collection in two. *)
Lemma jl_gc_collect_app h fuel pre post s :
  jl_gc_collect h fuel (pre ++ post) s
  = res_bind (jl_gc_collect h fuel pre s) (jl_gc_collect h fuel post).
Proof.
  revert s. induction pre as [|cb pre IH]; intros s; simpl; [done|].
  destruct (callback h fuel cb s); simpl; [apply IH | done | done].
Qed.

Lemma inert_refl s : inert s s.
Proof. unfold inert. split_conj; auto. Qed.

Lemma inert_trans s1 s2 s3 : inert s1 s2 → inert s2 s3 → inert s1 s3.
Proof.
  unfold inert. intros (? & ? & ? & ? & ? & ?) (? & ? & ? & ? & ? & ?).
  split_conj; try congruence. auto.
Qed.

(** While no session records, a collection returns and is inert. *)
Lemma jl_gc_collect_idle h fuel calls :
  ∀ s, g_recording s = false →
  ∃ s', jl_gc_collect h fuel calls s = Ok s' ∧ inert s s'.
Proof.
  induction calls as [|cb calls IH]; intros s Hrec; simpl.
  - exists s. split; [done | apply inert_refl].
  - destruct (callback_idle h fuel cb s Hrec) as (s1 & -> & Hi). simpl.
    destruct (IH s1) as (s2 & -> & Hi2).
    { destruct Hi as (_ & _ & -> & _). done. }
    exists s2. split; [done | by eapply inert_trans].
Qed.

Lemma warm_up_idle h fuel autos :
  ∀ s, g_recording s = false →
  ∃ s', warm_up h fuel autos s = Ok s' ∧ inert s s'.
Proof.
  induction autos as [|calls autos IH]; intros s Hrec; simpl.
  - exists s. split; [done | apply inert_refl].
  - destruct (jl_gc_collect_idle h fuel calls s Hrec) as (s1 & -> & Hi).
    simpl. destruct (IH s1) as (s2 & -> & Hi2).
    { destruct Hi as (_ & _ & -> & _). done. }
    exists s2. split; [done | by eapply inert_trans].
Qed.


(** ** First discovery wins *)

Lemma recorder_ok_example_session : recorder_ok (recorder example_session).
Proof. unfold recorder_ok, well_formed. simpl. lia. Qed.

Lemma recorder_ok_example_idle : recorder_ok (recorder example_idle).
Proof. unfold recorder_ok, well_formed. simpl. lia. Qed.

(** Claim C3. Once an identity has a node, whatever report created it,
    the node stays as it is through any further calls of a collection, and
    every later report that names the identity returns without changing
    the index, the watch set or the output. When the first report was a
    root, the node keeps the kind [ROOT], the name of the root and no
    parent, whatever edges to it are reported afterwards. *)
Theorem first_discovery_wins (h : Host) (fuel : nat) (first again : Callback)
    (calls : list Callback) (to : Z) (node : Object) (s s1 s2 : State) :
  recorder_ok (recorder s) →
  reported first = Some to → callback h fuel first s = Ok s1 →
  g_index s1 !! to = Some node →
  jl_gc_collect h fuel calls s1 = Ok s2 →
  reported again = Some to →
  g_index s2 !! to = Some node
  ∧ (∃ s3, callback h fuel again s2 = Ok s3
           ∧ g_index s3 = g_index s2 ∧ g_targets s3 = g_targets s2
           ∧ trace s3 = trace s2)
  ∧ (∀ root name, first = RecordRoot root name → g_index s !! to = None →
       m_type_ref node = ROOT ∧ m_name node = name ∧ m_parent node = None).
Proof.
  intros Hok Hrep Hfirst Hnode Hcalls Hagain.
  destruct (callback_effect h fuel first s s1 Hok Hfirst) as (Hok1 & _).
  destruct (jl_gc_collect_effect h fuel calls s1 s2 Hok1 Hcalls)
    as (_ & _ & _ & Hkeep & _).
  pose proof (Hkeep to node Hnode) as Hnode2.
  split; [done|]. split.
  - destruct (record_known h fuel again to node s2 Hagain Hnode2)
      as (s3 & E & Hi & Ht & _ & Htr & _).
    exists s3. done.
  - intros root name -> Hnew.
    destruct (callback_report h fuel _ s s1 Hok Hfirst)
      as [(Hi & _) | (to' & r & ls & chain & _ & Hrep' & _ & _ & _ & Has)].
    + rewrite Hi, Hnew in Hnode. done.
    + simpl in Hrep, Hrep'. destruct Has as (Hi & _).
      assert (to' = to) as -> by congruence.
      rewrite Hi, lookup_insert_eq in Hnode. injection Hnode as <-. done.
Qed.

Lemma first_discovery_wins_witness :
  g_index example_rooted !! 1
  = Some {| m_pointer := 1; m_parent := None; m_type_ref := ROOT;
            m_name := "main"; m_index := 0 |}
  ∧ (∃ s3, callback example_host 5 (RecordModule 1 1 "self") example_rooted
           = Ok s3
           ∧ g_index s3 = g_index example_rooted
           ∧ g_targets s3 = g_targets example_rooted
           ∧ trace s3 = trace example_rooted)
  ∧ (∀ root name, RecordRoot 1 "main" = RecordRoot root name →
       g_index example_session !! 1 = None →
       m_type_ref {| m_pointer := 1; m_parent := None; m_type_ref := ROOT;
                     m_name := "main"; m_index := 0 |} = ROOT
       ∧ m_name {| m_pointer := 1; m_parent := None; m_type_ref := ROOT;
                   m_name := "main"; m_index := 0 |} = name
       ∧ m_parent {| m_pointer := 1; m_parent := None; m_type_ref := ROOT;
                     m_name := "main"; m_index := 0 |} = None).
Proof.
  apply (first_discovery_wins example_host 5 (RecordRoot 1 "main")
           (RecordModule 1 1 "self") [] 1 _ example_session example_rooted
           example_rooted).
  - exact recorder_ok_example_session.
  - reflexivity.
  - reflexivity.
  - reflexivity.
  - reflexivity.
  - reflexivity.
Defined.


(** ** The session *)

(** Claim C7. Started from the idle state with a non-empty watch set,
    [jl_gc_trace] clears the index before it calls the collector and
    leaves the watch set as it is; the collection that is traced starts
    with an empty index, the whole watch set, and the recording flag and
    the event log switched on, and both stay on until it returns (after
    any part of its calls). When that collection returns in [s3],
    [jl_gc_trace] returns: it has printed, after the duration, the
    identities still in the watch set as not detected (or that all were
    detected), and the watch set and the index are empty, the recording
    flag off and the event log disabled. *)
Theorem jl_gc_trace_session (h : Host) (fuel : nat)
    (autos : list (list Callback)) (full : list Callback)
    (s s1 s3 : State) :
  recorder_ok (recorder s) → g_recording s = false → g_targets s ≠ ∅ →
  warm_up h fuel autos (trace_reset s) = Ok s1 →
  jl_gc_collect h fuel full (trace_start s1) = Ok s3 →
  (g_index (trace_reset s) = ∅ ∧ g_targets (trace_reset s) = g_targets s)
  ∧ (g_index (trace_start s1) = ∅
     ∧ g_targets (trace_start s1) = g_targets s
     ∧ g_recording (trace_start s1) = true
     ∧ g_flight_recorder_enabled (recorder (trace_start s1)) = true)
  ∧ (∀ pre post sm,
       full = pre ++ post →
       jl_gc_collect h fuel pre (trace_start s1) = Ok sm →
       g_recording sm = true
       ∧ g_flight_recorder_enabled (recorder sm) = true)
  ∧ jl_gc_trace h fuel autos full s = Ok (trace_end s3)
  ∧ trace (trace_end s3)
    = trace s3
      ++ [OutExecuted;
          if decide (g_targets s3 = ∅) then OutAllDetected
          else OutNotDetected (elements (g_targets s3));
          OutDone]
  ∧ (∀ p, p ∈ elements (g_targets s3) ↔ p ∈ g_targets s3)
  ∧ g_targets (trace_end s3) = ∅
  ∧ g_index (trace_end s3) = ∅
  ∧ g_recording (trace_end s3) = false
  ∧ g_flight_recorder_enabled (recorder (trace_end s3)) = false.
Proof.
  intros Hok Hidle Hne Hwarm Hfull.
  destruct (warm_up_idle h fuel autos (trace_reset s) Hidle)
    as (s1' & E & Hi & Ht & Hr & Htr & Hen & Hok1).
  rewrite Hwarm in E. injection E as <-.
  assert (Hok2 : recorder_ok (recorder (trace_start s1))).
  { specialize (Hok1 Hok). unfold recorder_ok in *. exact Hok1. }
  split; [done|]. split.
  { split_conj; try reflexivity.
    - unfold trace_start. fields. by rewrite Hi.
    - unfold trace_start. fields. by rewrite Ht. }
  split.
  { intros pre post sm _ Hpre.
    destruct (jl_gc_collect_effect h fuel pre _ sm Hok2 Hpre)
      as (_ & Hr' & He' & _).
    rewrite Hr', He'. done. }
  split.
  { unfold jl_gc_trace. rewrite decide_False by done. cbv zeta.
    rewrite Hwarm. cbn [res_bind]. rewrite Hfull. reflexivity. }
  split.
  { unfold trace_end. cbv zeta. fields.
    destruct (decide (g_targets s3 = ∅)) as [E|E].
    - fields. by rewrite <- !app_assoc.
    - fields. by rewrite <- !app_assoc. }
  split; [intros p; apply elem_of_elements|].
  done.
Qed.


Lemma example_idle_targets : g_targets example_idle ≠ ∅.
Proof.
  intros E. assert (H : 7 ∈ g_targets example_idle)
    by (change (7 ∈ ({[7]} : gset Z)); by apply elem_of_singleton_2).
  rewrite E in H. by apply not_elem_of_empty in H.
Qed.

Lemma jl_gc_trace_session_witness :
  jl_gc_trace example_host 5 example_autos example_calls example_idle
  = Ok (trace_end example_traced)
  ∧ g_targets (trace_end example_traced) = ∅
  ∧ g_index (trace_end example_traced) = ∅.
Proof.
  assert (Hwarm : warm_up example_host 5 example_autos
                    (trace_reset example_idle) = Ok example_warm)
    by (vm_compute; reflexivity).
  assert (Hfull : jl_gc_collect example_host 5 example_calls
                    (trace_start example_warm) = Ok example_traced)
    by (vm_compute; reflexivity).
  pose proof (jl_gc_trace_session example_host 5 example_autos example_calls
                example_idle example_warm example_traced
                recorder_ok_example_idle eq_refl example_idle_targets
                Hwarm Hfull) as H.
  split; [apply H|]. split; apply H.
Defined.

(** The session of the example: the target 7 is found as the field
    [tail] of the root 1, and all targets are reported as detected. *)
Example example_session_trace :
  trace (trace_end example_traced)
  = [OutChecking [7]; OutRunning;
     OutTargetFound 7;
     OutChain 0 (HeadParent 1) "tail" (Some 1) 7;
     OutChain 1 HeadRoot "main" None 1;
     OutBlank;
     OutExecuted; OutAllDetected; OutDone].
Proof. vm_compute. reflexivity. Qed.


(** ** A parent that is not in the index *)





(** What the example prints: the dump of the two entries that the callback
    itself logged (the messages cut to the 16 bytes of a slot), the error
    line and the trap; then, the trap passed, the target with its chain of
    one line. *)
Example parent_lookup_miss_trace :
  trace (force example_session
           (callback example_host 5 (RecordArray 5 7 2) example_session))
  = [OutFlightRecorder (Header (Some 2));
     OutFlightRecorder
       (EntryLine 1 "gc-tracing.cpp" 236 "gc_record_array_edge"
          "from: 0x5, to: ");
     OutFlightRecorder
       (EntryLine 0 "gc-tracing.cpp" 240 "gc_record_array_edge"
          "item inserted");
     OutCannotFindParent 7; Trap;
     OutTargetFound 7; OutChain 0 HeadUnknown "" (Some 2) 7; OutBlank].
Proof. vm_compute. reflexivity. Qed.


(** ** A new node and the watch set *)





(** In a collection that starts with an empty index (as the one that
    [jl_gc_trace] runs does), an identity is reported once at most. *)
Lemma reported_at_most_once h fuel calls s s' p :
  recorder_ok (recorder s) → jl_gc_collect h fuel calls s = Ok s' →
  (reports p (trace s') ≤ reports p (trace s) + unseen p (g_index s))%nat
  ∧ (unseen p (g_index s) ≤ 1)%nat.
Proof.
  intros Hok Hcalls.
  destruct (jl_gc_collect_effect h fuel calls s s' Hok Hcalls)
    as (_ & _ & _ & _ & _ & _ & _ & Hpot).
  specialize (Hpot p). unfold unseen in *.
  destruct (g_index s !! p), (g_index s' !! p); lia.
Qed.


Lemma example_rooted_Ok :
  callback example_host 5 (RecordRoot 1 "main") example_session
  = Ok example_rooted.
Proof. vm_compute. reflexivity. Qed.

Lemma recorder_ok_example_rooted : recorder_ok (recorder example_rooted).
Proof.
  apply (callback_effect example_host 5 (RecordRoot 1 "main")
           example_session example_rooted recorder_ok_example_session
           example_rooted_Ok).
Qed.



Lemma callback_not_recording_witness :
  ∃ s', callback example_host 5 (RecordArray 1 7 0) example_idle = Ok s'
        ∧ g_index s' = g_index example_idle
        ∧ g_targets s' = g_targets example_idle
        ∧ g_recording s' = false ∧ trace s' = trace example_idle.
Proof.
  apply (callback_not_recording example_host 5 (RecordArray 1 7 0)
           example_idle).
  reflexivity.
Defined.


(** ** The invariant of the flight recorder *)

(** The flight recorder of the process is well formed from the start, and
    [callback_effect] and [jl_gc_collect_effect] show that it stays so. *)
Lemma recorder_ok_initial_state s :
  initial_state = Some s → recorder_ok (recorder s).
Proof.
  unfold initial_state, initial.
  destruct (ctor 2048 512) as [fr|] eqn:E; [|done].
  simpl. intros [= <-]. unfold recorder_ok. simpl.
  by apply (well_formed_ctor 2048 512).
Qed.

Lemma initial_state_Some : is_Some initial_state.
Proof. vm_compute. eauto. Qed.

Lemma recorder_ok_jl_gc_addptr pointer s :
  recorder_ok (recorder s) → recorder_ok (recorder (jl_gc_addptr pointer s)).
Proof. done. Qed.


(** * Further properties of gc-tracing.cpp *)

(** ** What the callbacks log *)

Lemma keeps_find_parent this from s s' :
  find_parent this from s = Ok s' → recorder s' = recorder s.
Proof.
  unfold find_parent, STOP_AND_DEBUG.
  destruct (g_index s !! from); [by intros [= <-]|].
  destruct (flight_recorder_dump_n 128 (recorder s)) as [ls| |];
    cbn [res_bind]; [|done|done].
  destruct (g_index (emit (OutFlightRecorder <$> ls) s) !! this);
    [by intros [= <-] | done].
Qed.

Ltac keeps_set_parent :=
  let E := fresh "E" in
  intros ?s ?s';
  unfold set_parent_module, set_parent_task, set_parent_frame,
    set_parent_array, set_parent_field; cbv zeta;
  match goal with
  | |- context [find_parent ?this ?from ?s0] =>
      destruct (find_parent this from s0) as [?s1| |] eqn:E;
      cbn [res_bind]; try done;
      apply keeps_find_parent in E; revert E; fields;
      intros E; intros [= <-]; fields; exact E
  end.

Lemma keeps_set_parent_module this module name :
  ∀ s s', set_parent_module this module name s = Ok s' →
          recorder s' = recorder s.
Proof. keeps_set_parent. Qed.
Lemma keeps_set_parent_task this task :
  ∀ s s', set_parent_task this task s = Ok s' → recorder s' = recorder s.
Proof. keeps_set_parent. Qed.
Lemma keeps_set_parent_frame this frame :
  ∀ s s', set_parent_frame this frame s = Ok s' → recorder s' = recorder s.
Proof. keeps_set_parent. Qed.
Lemma keeps_set_parent_array this array index :
  ∀ s s', set_parent_array this array index s = Ok s' →
          recorder s' = recorder s.
Proof. keeps_set_parent. Qed.
Lemma keeps_set_parent_field this obj field_index field_name :
  ∀ s s', set_parent_field this obj field_index field_name s = Ok s' →
          recorder s' = recorder s.
Proof. keeps_set_parent. Qed.

Lemma keeps_target_found fuel to s s' :
  target_found fuel to s = Ok s' → recorder s' = recorder s.
Proof. intros H. by apply target_found_Ok in H as (_ & _ & ? & _). Qed.

(** The end of a callback: the parent is set, then the watch set is
    consulted. *)
Lemma keeps_tail (setp : State → Res State) fuel to s s' :
  (∀ a b, setp a = Ok b → recorder b = recorder a) →
  res_bind (setp s) (λ s1, target_found fuel to s1) = Ok s' →
  recorder s' = recorder s.
Proof.
  intros Hsetp. destruct (setp s) as [s1| |] eqn:E; cbn [res_bind]; try done.
  intros H. apply keeps_target_found in H. apply Hsetp in E. congruence.
Qed.


Lemma FR_all_nil g : FR_all [] g = g.
Proof. reflexivity. Qed.

Lemma FR_all_one line fn text g :
  FR FILE line fn text g = FR_all [logged line fn text] g.
Proof. reflexivity. Qed.

Lemma FR_all_two l1 f1 t1 l2 f2 t2 g :
  FR FILE l2 f2 t2 (FR FILE l1 f1 t1 g)
  = FR_all [logged l1 f1 t1; logged l2 f2 t2] g.
Proof. reflexivity. Qed.

(** [g'] is [g] after two uses at most of [FR] in gc-tracing.cpp. *)
Lemma logs_two_at_most (g g' : Global) :
  g' = g
  ∨ (∃ l1 f1 t1, g' = FR FILE l1 f1 t1 g)
  ∨ (∃ l1 f1 t1 l2 f2 t2, g' = FR FILE l2 f2 t2 (FR FILE l1 f1 t1 g)) →
  ∃ calls, (length calls ≤ 2)%nat
           ∧ (∀ c, c ∈ calls → m_source c.1 = FILE)
           ∧ g' = FR_all calls g.
Proof.
  intros [-> | [(l1 & f1 & t1 & ->)
               | (l1 & f1 & t1 & l2 & f2 & t2 & ->)]].
  - exists []. split; [simpl; lia|]. split; [|done].
    intros c Hc. by apply not_elem_of_nil in Hc.
  - exists [logged l1 f1 t1]. split; [simpl; lia|]. split; [|done].
    intros c Hc. apply list_elem_of_singleton in Hc as ->. done.
  - exists [logged l1 f1 t1; logged l2 f2 t2]. split; [simpl; lia|].
    split; [|done]. intros c Hc.
    apply elem_of_cons in Hc as [->|Hc]; [done|].
    apply list_elem_of_singleton in Hc as ->. done.
Qed.

Ltac logged_none := intros [= <-]; left; reflexivity.
Ltac logged_once :=
  intros [= <-]; right; left; fields; do 3 eexists; reflexivity.
Ltac logged_twice H :=
  right; right; rewrite H; fields; do 6 eexists; reflexivity.

(** The recorder after a callback, by cases. *)
Lemma callback_recorder h fuel cb s s' :
  callback h fuel cb s = Ok s' →
  recorder s' = recorder s
  ∨ (∃ l1 f1 t1, recorder s' = FR FILE l1 f1 t1 (recorder s))
  ∨ (∃ l1 f1 t1 l2 f2 t2,
       recorder s' = FR FILE l2 f2 t2 (FR FILE l1 f1 t1 (recorder s))).
Proof.
  destruct cb as [root name | from to | from to | from to | from to index
                 | from to name | from to name | from to slot
                 | from to | from bytes];
    unfold_callbacks; rewrite ?g_recording_FR_.
  - destruct (g_recording s), (root =? 0); cbn [negb orb];
      try logged_once.
    unfold emplace. rewrite g_index_FR_.
    destruct (g_index s !! root); cbn [negb]; [logged_once|].
    intros H. apply keeps_target_found in H. unfold set_root in H.
    logged_twice H.
  - destruct (g_recording s); cbn [negb orb]; try logged_once.
    unfold emplace. rewrite g_index_FR_.
    destruct (g_index s !! to); cbn [negb]; [logged_once|].
    intros H. apply keeps_tail in H; [|apply keeps_set_parent_frame].
    logged_twice H.
  - destruct (g_recording s); cbn [negb orb]; try logged_once.
    unfold emplace. rewrite g_index_FR_.
    destruct (g_index s !! to); cbn [negb]; [logged_once|].
    intros H. apply keeps_set_parent_task in H. logged_twice H.
  - destruct (g_recording s); cbn [negb orb]; try logged_once.
    unfold emplace. rewrite g_index_FR_.
    destruct (g_index s !! to); cbn [negb]; [logged_once|].
    intros H. apply keeps_set_parent_frame in H. logged_twice H.
  - destruct (g_recording s); cbn [negb orb]; try logged_once.
    unfold emplace. rewrite g_index_FR_.
    destruct (g_index s !! to); cbn [negb]; [logged_once|].
    intros H. apply keeps_tail in H; [|apply keeps_set_parent_array].
    logged_twice H.
  - destruct (g_recording s); cbn [negb orb]; try logged_once.
    unfold emplace. rewrite g_index_FR_.
    destruct (g_index s !! to); cbn [negb]; [logged_once|].
    intros H. apply keeps_tail in H; [|apply keeps_set_parent_module].
    logged_twice H.
  - destruct (g_recording s) eqn:Hrec, (to =? 0); cbn [negb orb];
      try logged_none.
    unfold emplace. rewrite g_index_FR_.
    destruct (g_index s !! to); cbn [negb]; [logged_once|].
    intros H. apply keeps_tail in H; [|apply keeps_set_parent_module].
    logged_twice H.
  - destruct (g_recording s); cbn [negb orb]; try logged_once.
    unfold emplace. rewrite g_index_FR_.
    destruct (g_index s !! to); cbn [negb]; [logged_once|].
    destruct (resolve_field _ _ _ _ _ _ _ _ _) as [[[fi fname] err]| |];
      cbn [res_bind]; [|done|done].
    intros H. apply keeps_tail in H; [|apply keeps_set_parent_field].
    destruct err; logged_twice H.
  - destruct (g_recording s); cbn [negb]; logged_once.
  - destruct (g_recording s); cbn [negb]; logged_once.
Qed.

(** A callback that returns has used [FR] twice at most: the recorder it
    leaves is the one it found after two insertions at most, all from
    gc-tracing.cpp. While the flight recorder is disabled, no callback
    changes it. *)
Theorem callback_logs (h : Host) (fuel : nat) (cb : Callback)
    (s s' : State) :
  callback h fuel cb s = Ok s' →
  ∃ calls, (length calls ≤ 2)%nat
           ∧ (∀ c, c ∈ calls → m_source c.1 = FILE)
           ∧ recorder s' = FR_all calls (recorder s)
           ∧ (g_flight_recorder_enabled (recorder s) = false →
              recorder s' = recorder s).
Proof.
  intros H. apply callback_recorder in H.
  destruct (logs_two_at_most _ _ H) as (calls & Hlen & Hsrc & E).
  exists calls. split_conj; try done.
  intros Hoff. rewrite E. by apply FR_all_disabled.
Qed.

Lemma callback_logs_witness :
  ∃ calls, (length calls ≤ 2)%nat
           ∧ (∀ c, c ∈ calls → m_source c.1 = FILE)
           ∧ recorder example_rooted = FR_all calls (recorder example_session)
           ∧ (g_flight_recorder_enabled (recorder example_session) = false →
              recorder example_rooted = recorder example_session).
Proof.
  apply (callback_logs example_host 5 (RecordRoot 1 "main") example_session
           example_rooted).
  exact example_rooted_Ok.
Defined.


(** ** The watch set during a collection *)

Lemma callback_targets h fuel cb s s' p :
  recorder_ok (recorder s) → callback h fuel cb s = Ok s' →
  p ∈ g_targets s →
  p ∈ g_targets s' ∨ (reported cb = Some p ∧ is_Some (g_index s' !! p)).
Proof.
  intros Hok Hcb Hp.
  destruct (callback_report h fuel cb s s' Hok Hcb)
    as [(_ & Ht & _)
       | (to & r & ls & chain & _ & Hrep & _ & _ & _ & Has)].
  - left. by rewrite Ht.
  - destruct Has as (Hi & _ & _ & _ & _ & _ & _ & Ht).
    destruct (decide (p = to)) as [->|Hne].
    + right. split; [done|]. rewrite Hi, lookup_insert_eq. eauto.
    + left. rewrite Ht. destruct (_ && _); [|done].
      apply elem_of_difference. split; [done|].
      by intros ?%elem_of_singleton.
Qed.

Lemma jl_gc_collect_targets h fuel calls s s' :
  recorder_ok (recorder s) → jl_gc_collect h fuel calls s = Ok s' →
  (∀ p, p ∈ g_targets s →
        (∀ cb, cb ∈ calls → reported cb ≠ Some p) → p ∈ g_targets s')
  ∧ (∀ p, p ∈ g_targets s → p ∉ g_targets s' → is_Some (g_index s' !! p)).
Proof.
  revert s. induction calls as [|cb calls IH]; intros s Hok; simpl.
  - intros [= <-]. split; [done|]. intros p Hp Hn. done.
  - destruct (callback h fuel cb s) as [s1| |] eqn:Hcb; cbn [res_bind];
      [|done|done].
    intros Hrest.
    destruct (callback_effect h fuel cb s s1 Hok Hcb) as (Hok1 & _).
    destruct (IH s1 Hok1 Hrest) as [IH1 IH2].
    destruct (jl_gc_collect_effect h fuel calls s1 s' Hok1 Hrest)
      as (_ & _ & _ & Hkeep & _).
    split.
    + intros p Hp Hnone.
      destruct (callback_targets h fuel cb s s1 p Hok Hcb Hp)
        as [Hin | [Hrep _]].
      * apply IH1; [done|]. intros cb' Hcb'. apply Hnone.
        by apply list_elem_of_further.
      * exfalso. apply (Hnone cb); [apply list_elem_of_here | done].
    + intros p Hp Hout.
      destruct (callback_targets h fuel cb s s1 p Hok Hcb Hp)
        as [Hin | [_ [n Hn]]].
      * by apply IH2.
      * exists n. by apply Hkeep.
Qed.

(** During a collection the watch set only shrinks; an identity leaves it
    only through a report that names it, and has a node in the index once
    it has left. *)
Theorem watch_set_during_collection (h : Host) (fuel : nat)
    (calls : list Callback) (s s' : State) :
  recorder_ok (recorder s) → jl_gc_collect h fuel calls s = Ok s' →
  g_targets s' ⊆ g_targets s
  ∧ (∀ p, p ∈ g_targets s →
          (∀ cb, cb ∈ calls → reported cb ≠ Some p) → p ∈ g_targets s')
  ∧ (∀ p, p ∈ g_targets s → p ∉ g_targets s' → is_Some (g_index s' !! p)).
Proof.
  intros Hok Hcalls. split.
  - by apply (jl_gc_collect_effect h fuel calls s s' Hok Hcalls).
  - by apply (jl_gc_collect_targets h fuel calls s s').
Qed.

Lemma watch_set_during_collection_witness :
  ∃ s', jl_gc_collect example_host 5 [RecordObject 1 7 9] example_rooted
        = Ok s'
        ∧ g_targets s' ⊆ g_targets example_rooted
        ∧ (7 ∉ g_targets s' → is_Some (g_index s' !! 7)).
Proof.
  eexists. split; [vm_compute; reflexivity|].
  match goal with
  | |- ?X ⊆ _ ∧ _ =>
      pose proof (watch_set_during_collection example_host 5
                    [RecordObject 1 7 9] example_rooted _
                    recorder_ok_example_rooted
                    ltac:(vm_compute; reflexivity)) as (H1 & _ & H3)
  end.
  split; [exact H1|]. apply H3.
  change (7 ∈ ({[7]} : gset Z)). by apply elem_of_singleton_2.
Defined.

(** ** [jl_gc_trace], whatever the collector does *)

(** Whenever [jl_gc_trace] returns, the watch set is empty: the targets
    have to be registered again before the next session. Called without
    targets it only prints that there are none: the collector is not run,
    and the index and the flags are left as they were. Called with targets
    it leaves the index empty and both flags off. *)
Theorem jl_gc_trace_leaves (h : Host) (fuel : nat)
    (autos : list (list Callback)) (full : list Callback) (s s' : State) :
  jl_gc_trace h fuel autos full s = Ok s' →
  g_targets s' = ∅
  ∧ (g_targets s = ∅ → s' = emit [OutNoTargets] s)
  ∧ (g_targets s ≠ ∅ →
     g_index s' = ∅ ∧ g_recording s' = false
     ∧ g_flight_recorder_enabled (recorder s') = false).
Proof.
  unfold jl_gc_trace. destruct (decide (g_targets s = ∅)) as [E|E].
  - intros [= <-]. split; [exact E|]. split; [done|]. intros Hne. done.
  - cbv zeta.
    destruct (warm_up h fuel autos (trace_reset s)) as [s1| |];
      cbn [res_bind]; [|done|done].
    destruct (jl_gc_collect h fuel full (trace_start s1)) as [s3| |];
      cbn [res_bind]; [|done|done].
    intros [= <-]. split; [reflexivity|]. split; [done|].
    intros _. split_conj; reflexivity.
Qed.

Lemma jl_gc_trace_leaves_witness :
  g_targets (trace_end example_traced) = ∅
  ∧ (g_targets example_idle = ∅ →
     trace_end example_traced = emit [OutNoTargets] example_idle)
  ∧ (g_targets example_idle ≠ ∅ →
     g_index (trace_end example_traced) = ∅
     ∧ g_recording (trace_end example_traced) = false
     ∧ g_flight_recorder_enabled (recorder (trace_end example_traced))
       = false).
Proof.
  apply (jl_gc_trace_leaves example_host 5 example_autos example_calls
           example_idle (trace_end example_traced)).
  vm_compute. reflexivity.
Defined.

Lemma callback_reports_named h fuel cb s s' p :
  recorder_ok (recorder s) → callback h fuel cb s = Ok s' →
  reported cb ≠ Some p → reports p (trace s') = reports p (trace s).
Proof.
  intros Hok Hcb Hne.
  destruct (callback_report h fuel cb s s' Hok Hcb)
    as [(_ & _ & _ & Htr & _)
       | (to & r & ls & chain & _ & Hrep & _ & _ & _ & Has)].
  - by rewrite Htr.
  - destruct Has as (_ & _ & _ & _ & _ & Hch & Htr & _).
    rewrite Htr, reports_app, reports_app, reports_diag.
    rewrite (reports_found p to chain fuel _ _ _ Hch).
    rewrite (bool_decide_eq_false_2 (to = p)) by congruence.
    rewrite andb_false_r. lia.
Qed.

(** A target that no call of the traced collection names is never
    reported as found, and is listed as not detected when [jl_gc_trace]
    returns. *)
Theorem target_not_detected (h : Host) (fuel : nat)
    (autos : list (list Callback)) (full : list Callback) (s s' : State)
    (p : Z) :
  recorder_ok (recorder s) → g_recording s = false → p ∈ g_targets s →
  (∀ cb, cb ∈ full → reported cb ≠ Some p) →
  jl_gc_trace h fuel autos full s = Ok s' →
  reports p (trace s') = reports p (trace s)
  ∧ ∃ ps, p ∈ ps ∧ OutNotDetected ps ∈ trace s'.
Proof.
  intros Hok Hidle Hp Hnone. unfold jl_gc_trace.
  rewrite decide_False by (intros E; rewrite E in Hp;
                           by apply not_elem_of_empty in Hp).
  cbv zeta.
  destruct (warm_up_idle h fuel autos (trace_reset s) Hidle)
    as (s1 & -> & _ & Ht1 & _ & Htr1 & _ & Hok1).
  cbn [res_bind].
  destruct (jl_gc_collect h fuel full (trace_start s1)) as [s3| |] eqn:Hfull;
    cbn [res_bind]; [|done|done].
  intros [= <-].
  assert (Hok2 : recorder_ok (recorder (trace_start s1))) by (by apply Hok1).
  assert (Hp3 : p ∈ g_targets s3).
  { apply (jl_gc_collect_targets h fuel full _ s3 Hok2 Hfull);
      [|done]. unfold trace_start. fields. rewrite Ht1.
    unfold trace_reset. by fields. }
  assert (Hr3 : reports p (trace s3) = reports p (trace s)).
  { transitivity (reports p (trace (trace_start s1))).
    - clear Hp3. revert Hok2 Hfull. generalize (trace_start s1).
      induction full as [|cb full IH]; intros s0 Hok0; simpl.
      + by intros [= <-].
      + destruct (callback h fuel cb s0) as [s0'| |] eqn:Hcb;
          cbn [res_bind]; [|done|done].
        intros Hrest.
        destruct (callback_effect h fuel cb s0 s0' Hok0 Hcb) as (Hok0' & _).
        rewrite (IH ltac:(intros cb' Hcb'; apply Hnone;
                          by apply list_elem_of_further) s0' Hok0' Hrest).
        apply (callback_reports_named h fuel cb s0 s0' p Hok0 Hcb).
        apply Hnone, list_elem_of_here.
    - unfold trace_start. fields. rewrite Htr1. unfold trace_reset. fields.
      rewrite !reports_app. simpl. lia. }
  assert (Hne : g_targets s3 ≠ ∅).
  { intros E. rewrite E in Hp3. by apply not_elem_of_empty in Hp3. }
  unfold trace_end. cbv zeta. fields. rewrite decide_False by done. fields.
  split.
  - rewrite !reports_app. simpl. lia.
  - exists (elements (g_targets s3)). split; [by apply elem_of_elements|].
    rewrite !elem_of_app. left. right. apply list_elem_of_here.
Qed.


Lemma target_not_detected_witness :
  reports 7 (trace example_missed) = reports 7 (trace example_idle)
  ∧ ∃ ps, 7 ∈ ps ∧ OutNotDetected ps ∈ trace example_missed.
Proof.
  apply (target_not_detected example_host 5 example_autos
           [RecordRoot 1 "main"] example_idle example_missed 7).
  - exact recorder_ok_example_idle.
  - reflexivity.
  - change (7 ∈ ({[7]} : gset Z)). by apply elem_of_singleton_2.
  - intros cb Hcb. apply list_elem_of_singleton in Hcb as ->.
    simpl. congruence.
  - vm_compute. reflexivity.
Defined.

(** ** No dangling pointer in the index *)

Lemma new_node_parent_in cb to r index p :
  reported cb = Some to →
  m_parent (new_node cb r (parent_of cb to index)) = Some p →
  p = to ∨ is_Some (index !! p).
Proof.
  intros Hrep. unfold parent_of.
  destruct cb; simpl in *; try discriminate;
    (case_decide as Hd; [|discriminate]); intros [= <-];
    (destruct Hd as [->|Hd]; [left; congruence | by right]).
Qed.

Lemma index_ok_insert index to node :
  index_ok index → m_pointer node = to →
  (∀ p, m_parent node = Some p → p = to ∨ is_Some (index !! p)) →
  index_ok (<[to := node]> index).
Proof.
  intros Hok Hptr Hpar k o Hk.
  destruct (decide (to = k)) as [->|Hne].
  - rewrite lookup_insert_eq in Hk. injection Hk as <-. split; [done|].
    intros p Hp. destruct (Hpar p Hp) as [->|[x Hx]].
    + rewrite lookup_insert_eq. eauto.
    + rewrite lookup_insert. case_decide; eauto.
  - rewrite lookup_insert_ne in Hk by done.
    destruct (Hok k o Hk) as [Hptr' Hpar']. split; [done|].
    intros p Hp. destruct (Hpar' p Hp) as [x Hx].
    rewrite lookup_insert. case_decide; eauto.
Qed.

Lemma callback_index_ok h fuel cb s s' :
  recorder_ok (recorder s) → index_ok (g_index s) →
  callback h fuel cb s = Ok s' → index_ok (g_index s').
Proof.
  intros Hok Hidx Hcb.
  destruct (callback_report h fuel cb s s' Hok Hcb)
    as [(Hi & _) | (to & r & ls & chain & _ & Hrep & _ & _ & _ & Has)].
  - by rewrite Hi.
  - destruct Has as (Hi & _). rewrite Hi.
    apply index_ok_insert; [done | by apply (new_node_pointer cb to) |].
    intros p. by apply new_node_parent_in.
Qed.

(** The callbacks keep the index free of dangling pointers: after any
    collection that started so, every node is stored under its own pointer
    and the parent of every node is itself in the index. *)
Theorem index_stays_closed (h : Host) (fuel : nat) (calls : list Callback)
    (s s' : State) :
  recorder_ok (recorder s) → index_ok (g_index s) →
  jl_gc_collect h fuel calls s = Ok s' →
  index_ok (g_index s').
Proof.
  revert s. induction calls as [|cb calls IH]; intros s Hok Hidx; simpl.
  - by intros [= <-].
  - destruct (callback h fuel cb s) as [s1| |] eqn:Hcb; cbn [res_bind];
      [|done|done].
    intros Hrest.
    destruct (callback_effect h fuel cb s s1 Hok Hcb) as (Hok1 & _).
    apply (IH s1 Hok1); [|done].
    exact (callback_index_ok h fuel cb s s1 Hok Hidx Hcb).
Qed.

Lemma index_ok_empty : index_ok ∅.
Proof. intros k o Hk. by rewrite lookup_empty in Hk. Qed.

Lemma index_stays_closed_witness :
  index_ok (g_index (force example_session
                       (jl_gc_collect example_host 5 example_calls
                          example_session))).
Proof.
  apply (index_stays_closed example_host 5 example_calls example_session).
  - exact recorder_ok_example_session.
  - exact index_ok_empty.
  - vm_compute. reflexivity.
Defined.

(** The index grows by one node at most with each call. *)
Lemma callback_index_size h fuel cb s s' :
  recorder_ok (recorder s) → callback h fuel cb s = Ok s' →
  (base.size (g_index s') ≤ S (base.size (g_index s)))%nat.
Proof.
  intros Hok Hcb.
  destruct (callback_report h fuel cb s s' Hok Hcb)
    as [(Hi & _) | (to & r & ls & chain & _ & _ & _ & Hnew & _ & Has)].
  - rewrite Hi. lia.
  - destruct Has as (Hi & _). rewrite Hi.
    by rewrite map_size_insert_None.
Qed.

(** A collection of [n] calls adds [n] nodes at most to the index, and
    none while no session records. *)
Theorem index_growth (h : Host) (fuel : nat) (calls : list Callback)
    (s s' : State) :
  recorder_ok (recorder s) → jl_gc_collect h fuel calls s = Ok s' →
  (base.size (g_index s') ≤ base.size (g_index s) + length calls)%nat
  ∧ (g_recording s = false → g_index s' = g_index s).
Proof.
  intros Hok Hcalls. split.
  - revert s Hok Hcalls.
    induction calls as [|cb calls IH]; intros s Hok; simpl.
    + intros [= <-]. lia.
    + destruct (callback h fuel cb s) as [s1| |] eqn:Hcb; cbn [res_bind];
        [|done|done].
      intros Hrest.
      destruct (callback_effect h fuel cb s s1 Hok Hcb) as (Hok1 & _).
      pose proof (callback_index_size h fuel cb s s1 Hok Hcb).
      pose proof (IH s1 Hok1 Hrest). lia.
  - intros Hidle.
    destruct (jl_gc_collect_idle h fuel calls s Hidle) as (s'' & E & Hi & _).
    congruence.
Qed.

Lemma index_growth_witness :
  (base.size (g_index (force example_session
                    (jl_gc_collect example_host 5 example_calls
                       example_session)))
   ≤ base.size (g_index example_session) + length example_calls)%nat
  ∧ (g_recording example_session = false →
     g_index (force example_session
                (jl_gc_collect example_host 5 example_calls example_session))
     = g_index example_session).
Proof.
  apply (index_growth example_host 5 example_calls example_session).
  - exact recorder_ok_example_session.
  - vm_compute. reflexivity.
Defined.


(** ** What the callbacks never do *)

(** In an index without dangling pointer the walk dereferences no invalid
    pointer: it returns, or it goes on for ever. *)
Lemma chain_never_aborts fuel index :
  index_ok index →
  ∀ i k o why, index !! k = Some o →
               dump_ancestor_chain_from fuel index i o ≠ Abort why.
Proof.
  intros Hidx. induction fuel as [|fuel IH]; intros i k o why Hk; simpl;
    [done|].
  destruct (decide (m_type_ref o = ROOT)) as [Hr|Hr].
  { by rewrite chain_step_root. }
  destruct (m_parent o) as [p|] eqn:Hp.
  2: { by rewrite chain_step_none. }
  destruct (Hidx k o Hk) as [_ Hpar]. destruct (Hpar p Hp) as [parent Hl].
  rewrite (chain_step_parent _ _ _ p parent) by done. simpl.
  specialize (IH (i + 1) p parent why Hl).
  destruct (dump_ancestor_chain_from fuel index (i + 1) parent);
    simpl; congruence.
Qed.

(** With a well-formed flight recorder and an index without dangling
    pointer, a call that aborts is a field edge to a new identity, on the
    failed [assert] of its search for the field. *)
Lemma callback_Abort h fuel cb s why :
  recorder_ok (recorder s) → index_ok (g_index s) →
  callback h fuel cb s = Abort why →
  why = AssertFailed
  ∧ ∃ from to slot, cb = RecordObject from to slot
                    ∧ g_recording s = true ∧ g_index s !! to = None
                    ∧ resolution h fuel cb = Abort AssertFailed.
Proof.
  intros Hok Hidx Hcb.
  destruct (g_recording s) eqn:Hrec.
  2: { destruct (callback_idle h fuel cb s Hrec) as (s' & E & _).
       congruence. }
  destruct (null_report cb) eqn:Hnull.
  { destruct (callback_null h fuel cb s Hnull) as (s' & E & _). congruence. }
  destruct (reported cb) as [to|] eqn:Hrep.
  2: { destruct (callback_unreported h fuel cb s Hrep) as (s' & E & _).
       congruence. }
  destruct (g_index s !! to) as [n|] eqn:Hnew.
  { destruct (record_known h fuel cb to n s Hrep Hnew) as (s' & E & _).
    congruence. }
  destruct (resolution h fuel cb) as [r|why'|] eqn:Hres.
  - exfalso.
    destruct (record_new h fuel cb to s r Hrec Hrep Hnull Hnew Hok Hres)
      as (s1 & ls & E & _ & Hi & _).
    rewrite E in Hcb. destruct (checks_target cb); [|done].
    unfold target_found in Hcb.
    destruct (decide (to ∈ g_targets s1)); [|done].
    rewrite Hi, lookup_insert_eq in Hcb. cbv zeta in Hcb.
    assert (Hidx1 : index_ok (g_index s1)).
    { rewrite Hi. apply index_ok_insert;
        [done | by apply (new_node_pointer cb to) |].
      intros p. by apply new_node_parent_in. }
    revert Hcb. unfold dump_ancestor_chain. fields.
    pose proof (chain_never_aborts fuel (g_index s1) Hidx1 0 to
                  (new_node cb r (parent_of cb to (g_index s))) why
                  ltac:(by rewrite Hi, lookup_insert_eq)) as Hn.
    destruct (dump_ancestor_chain_from fuel (g_index s1) 0 _);
      cbn [res_bind]; congruence.
  - rewrite (record_unresolved_abort h fuel cb to s why' Hrec Hrep Hnew Hres)
      in Hcb.
    injection Hcb as ->.
    assert (why = AssertFailed) as ->.
    { destruct cb; simpl in Hres; try discriminate.
      by eapply resolve_field_abort. }
    split; [done|].
    destruct cb as [root name | from to' | from to' | from to' | from to' index
                   | from to' name | from to' name | from to' slot
                   | from to' | from bytes];
      simpl in Hres; try discriminate.
    simpl in Hrep. injection Hrep as ->. exists from, to, slot. done.
  - rewrite (record_unresolved_fuel h fuel cb to s Hrec Hrep Hnew Hres)
      in Hcb. done.
Qed.

(** A call that does not return searches a field, or walks the chain of
    a watched identity that it recorded. *)
Lemma callback_OutOfFuel h fuel cb s :
  recorder_ok (recorder s) → callback h fuel cb s = OutOfFuel →
  ∃ to, g_recording s = true ∧ reported cb = Some to
        ∧ g_index s !! to = None ∧ checks_target cb = true
        ∧ (resolution h fuel cb = OutOfFuel ∨ to ∈ g_targets s).
Proof.
  intros Hok Hcb.
  destruct (g_recording s) eqn:Hrec.
  2: { destruct (callback_idle h fuel cb s Hrec) as (s' & E & _).
       congruence. }
  destruct (null_report cb) eqn:Hnull.
  { destruct (callback_null h fuel cb s Hnull) as (s' & E & _). congruence. }
  destruct (reported cb) as [to|] eqn:Hrep.
  2: { destruct (callback_unreported h fuel cb s Hrep) as (s' & E & _).
       congruence. }
  destruct (g_index s !! to) as [n|] eqn:Hnew.
  { destruct (record_known h fuel cb to n s Hrep Hnew) as (s' & E & _).
    congruence. }
  exists to. split_conj; try done.
  - destruct (resolution h fuel cb) as [r|why|] eqn:Hres.
    + destruct (record_new h fuel cb to s r Hrec Hrep Hnull Hnew Hok Hres)
        as (s1 & ls & E & _).
      rewrite E in Hcb. by destruct (checks_target cb).
    + destruct (resolution_fails h fuel cb) as (f & t & sl & ->);
        [congruence | done].
    + destruct (resolution_fails h fuel cb) as (f & t & sl & ->);
        [congruence | done].
  - destruct (resolution h fuel cb) as [r|why|] eqn:Hres; [|exfalso|by left].
    + right.
      destruct (record_new h fuel cb to s r Hrec Hrep Hnull Hnew Hok Hres)
        as (s1 & ls & E & _ & _ & Ht & _).
      rewrite E in Hcb. destruct (checks_target cb); [|done].
      destruct (decide (to ∈ g_targets s)) as [Hin|Hin]; [done|].
      rewrite target_found_not_watched in Hcb by (by rewrite Ht). done.
    + rewrite (record_unresolved_abort h fuel cb to s why Hrec Hrep Hnew Hres)
        in Hcb. done.
Qed.

(** The lines of a chain, of a dump and of a report hold no trap. *)
Lemma chain_no_trap fuel index i o ls :
  dump_ancestor_chain_from fuel index i o = Ok ls → Trap ∉ ls.
Proof.
  revert i o ls. induction fuel as [|fuel IH]; intros i o ls; simpl; [done|].
  destruct (chain_step index i o) as [[l next]| |] eqn:Hs; simpl;
    [|done|done].
  destruct (chain_step_line _ _ _ _ _ Hs) as [head ->].
  destruct next as [parent|].
  2: { intros [= <-] H. by apply list_elem_of_singleton in H. }
  destruct (dump_ancestor_chain_from fuel index (i + 1) parent) as [ls'| |]
    eqn:Hd; simpl; [|done|done].
  intros [= <-] H. apply elem_of_cons in H as [H|H]; [done|].
  by apply (IH _ _ _ Hd).
Qed.

Lemma trap_in_debug h fuel cb r :
  resolution h fuel cb = Ok r → Trap ∈ debug_lines cb r ↔ r.2 = true.
Proof.
  destruct cb; simpl;
    try (intros [= <-]; simpl; split;
         [intros H; by apply not_elem_of_nil in H | done]).
  intros _. destruct r.2.
  - split; [done|]. intros _.
    do 2 apply list_elem_of_further. apply list_elem_of_here.
  - split; [|done]. intros H. by apply not_elem_of_nil in H.
Qed.

Lemma trap_in_stop to ls : Trap ∈ stop_lines to ls.
Proof.
  unfold stop_lines. apply elem_of_app. right.
  apply list_elem_of_further, list_elem_of_here.
Qed.

(** With a well-formed flight recorder and an index without dangling
    pointer, a callback stops short of its return in three ways only, none
    of them the fatal path of the flight recorder. It raises the trap of
    [break_into_debugger], past which the embedding follows the process
    as a debugger would resume it, exactly when it records a new identity
    whose parent is not in the index or whose field was resolved with
    error. It aborts only as a field edge to a new identity, on the failed
    [assert] of its search for the field. It does not return only when
    that search does not end, or when it recorded a watched identity and
    walks its chain. *)
Theorem callback_trap_or_assert (h : Host) (fuel : nat) (cb : Callback)
    (s : State) :
  recorder_ok (recorder s) → index_ok (g_index s) →
  match callback h fuel cb s with
  | Ok s' =>
      ∃ out,
        trace s' = trace s ++ out
        ∧ (Trap ∈ out
           ↔ g_recording s = true ∧ null_report cb = false
             ∧ ∃ to r, reported cb = Some to ∧ g_index s !! to = None
                       ∧ resolution h fuel cb = Ok r
                       ∧ (r.2 = true
                          ∨ parent_missing cb to (g_index s) = true))
  | Abort why =>
      why = AssertFailed
      ∧ ∃ from to slot, cb = RecordObject from to slot
                        ∧ g_recording s = true ∧ g_index s !! to = None
                        ∧ resolution h fuel cb = Abort AssertFailed
  | OutOfFuel =>
      ∃ to, g_recording s = true ∧ reported cb = Some to
            ∧ g_index s !! to = None ∧ checks_target cb = true
            ∧ (resolution h fuel cb = OutOfFuel ∨ to ∈ g_targets s)
  end.
Proof.
  intros Hok Hidx.
  destruct (callback h fuel cb s) as [s'|why|] eqn:Hcb.
  2: { by apply (callback_Abort h fuel cb s why). }
  2: { by apply (callback_OutOfFuel h fuel cb s). }
  destruct (callback_report h fuel cb s s' Hok Hcb)
    as [(Hi & _ & _ & Htr & _)
       | (to & r & ls & chain & Hrec & Hrep & Hnull & Hnew & Hres & Has)].
  - exists []. split; [by rewrite app_nil_r|]. split.
    { intros H. by apply not_elem_of_nil in H. }
    intros (Hrec & Hnull & to & r & Hrep & Hnew & Hres & _). exfalso.
    destruct (record_new h fuel cb to s r Hrec Hrep Hnull Hnew Hok Hres)
      as (s1 & ls & E & _ & Hi1 & _).
    rewrite Hcb in E.
    assert (Hs' : g_index s' = g_index s1).
    { destruct (checks_target cb); [|congruence].
      symmetry in E. by apply target_found_Ok in E as (-> & _). }
    rewrite Hi, Hi1 in Hs'.
    pose proof (f_equal (λ m : gmap Z Object, m !! to) Hs') as Hl.
    simpl in Hl. rewrite lookup_insert_eq, Hnew in Hl. done.
  - destruct Has as (_ & _ & _ & _ & _ & Hch & Htr & _).
    eexists. split; [exact Htr|].
    assert (Hfound : Trap ∉
      (if checks_target cb && bool_decide (to ∈ g_targets s)
       then [OutTargetFound to] ++ chain ++ [OutBlank] else [])).
    { destruct (checks_target cb && bool_decide (to ∈ g_targets s));
        [|apply not_elem_of_nil].
      specialize (Hch eq_refl). apply chain_no_trap in Hch.
      rewrite !elem_of_app. intros [H|[H|H]]; [|done|];
        by apply list_elem_of_singleton in H. }
    rewrite !elem_of_app, (trap_in_debug h fuel cb r Hres). split.
    + intros [[Hd | Hs] | Hf]; [| |done].
      * split; [done|]. split; [done|]. exists to, r. split_conj; tauto.
      * split; [done|]. split; [done|]. exists to, r. split_conj; try done.
        right. destruct (parent_missing cb to (g_index s)); [done|].
        by apply not_elem_of_nil in Hs.
    + intros (_ & _ & to' & r' & Hrep' & _ & Hres' & Hcause).
      assert (to' = to) as -> by congruence.
      assert (r' = r) as -> by congruence.
      destruct Hcause as [Herr | Hmiss]; [by left; left|].
      left. right. rewrite Hmiss. apply trap_in_stop.
Qed.

Lemma index_ok_example_rooted : index_ok (g_index example_rooted).
Proof.
  apply (callback_index_ok example_host 5 (RecordRoot 1 "main")
           example_session example_rooted recorder_ok_example_session
           index_ok_empty example_rooted_Ok).
Qed.

Lemma callback_trap_or_assert_witness :
  match callback example_fieldless_host 5 (RecordObject 1 7 9)
          example_rooted with
  | Ok s' =>
      ∃ out,
        trace s' = trace example_rooted ++ out
        ∧ (Trap ∈ out
           ↔ g_recording example_rooted = true
             ∧ null_report (RecordObject 1 7 9) = false
             ∧ ∃ to r, reported (RecordObject 1 7 9) = Some to
                       ∧ g_index example_rooted !! to = None
                       ∧ resolution example_fieldless_host 5
                           (RecordObject 1 7 9) = Ok r
                       ∧ (r.2 = true
                          ∨ parent_missing (RecordObject 1 7 9) to
                              (g_index example_rooted) = true))
  | Abort why =>
      why = AssertFailed
      ∧ ∃ from to slot,
          RecordObject 1 7 9 = RecordObject from to slot
          ∧ g_recording example_rooted = true
          ∧ g_index example_rooted !! to = None
          ∧ resolution example_fieldless_host 5 (RecordObject 1 7 9)
            = Abort AssertFailed
  | OutOfFuel =>
      ∃ to, g_recording example_rooted = true
            ∧ reported (RecordObject 1 7 9) = Some to
            ∧ g_index example_rooted !! to = None
            ∧ checks_target (RecordObject 1 7 9) = true
            ∧ (resolution example_fieldless_host 5 (RecordObject 1 7 9)
               = OutOfFuel
               ∨ to ∈ g_targets example_rooted)
  end.
Proof.
  apply (callback_trap_or_assert example_fieldless_host 5
           (RecordObject 1 7 9) example_rooted).
  - exact recorder_ok_example_rooted.
  - exact index_ok_example_rooted.
Defined.

(** ** An edge from an identity to itself *)

(** [g_index.find(from)] runs after the node of [to] was emplaced, so an
    edge reported from a new identity to itself makes the node its own
    parent; when the identity is watched, the walk of
    [dump_ancestor_chain] from it has no end and the callback does not
    return, whatever the fuel. *)
Theorem self_edge_does_not_return (h : Host) (fuel : nat) (cb : Callback)
    (to : Z) (s : State) (r : Z * string * bool) :
  recorder_ok (recorder s) → g_recording s = true →
  reported cb = Some to → edge_from cb = Some to → null_report cb = false →
  checks_target cb = true →
  g_index s !! to = None → to ∈ g_targets s →
  resolution h fuel cb = Ok r →
  callback h fuel cb s = OutOfFuel.
Proof.
  intros Hok Hrec Hrep Hfrom Hnull Hck Hnew Hin Hres.
  destruct (record_new h fuel cb to s r Hrec Hrep Hnull Hnew Hok Hres)
    as (s1 & ls & E & _ & Hi & Ht & _).
  rewrite E, Hck. unfold target_found.
  rewrite decide_True by (by rewrite Ht).
  rewrite Hi, lookup_insert_eq. cbv zeta. unfold dump_ancestor_chain. fields.
  assert (Hpar : parent_of cb to (g_index s) = Some to).
  { unfold parent_of. rewrite Hfrom. rewrite decide_True; [done | by left]. }
  rewrite Hpar in *.
  set (node := new_node cb r (Some to)) in *.
  assert (Hptr : m_pointer node = to) by (by apply (new_node_pointer cb)).
  rewrite self_parent_diverges; [done | | |].
  - intros Hr. apply new_node_kind in Hr. congruence.
  - rewrite Hptr. apply (new_node_parent cb to); [done | congruence].
  - by rewrite Hptr, Hi, lookup_insert_eq.
Qed.

Lemma self_edge_does_not_return_witness :
  callback example_host 5 (RecordArray 7 7 0) example_session = OutOfFuel.
Proof.
  apply (self_edge_does_not_return example_host 5 (RecordArray 7 7 0) 7
           example_session (0, ""%string, false)).
  - exact recorder_ok_example_session.
  - reflexivity.
  - reflexivity.
  - reflexivity.
  - reflexivity.
  - reflexivity.
  - reflexivity.
  - change (7 ∈ ({[7]} : gset Z)). by apply elem_of_singleton_2.
  - reflexivity.
Defined.

(** ** The lines of a chain *)

Lemma chain_head fuel index i o ls :
  dump_ancestor_chain_from fuel index i o = Ok ls →
  ∃ head rest, ls = chain_line i head o :: rest.
Proof.
  destruct fuel as [|fuel]; simpl; [done|].
  destruct (chain_step index i o) as [[l next]| |] eqn:Hs; simpl;
    [|done|done].
  destruct (chain_step_line _ _ _ _ _ Hs) as [head ->].
  destruct next as [parent|]; [|intros [= <-]; eauto].
  destruct (dump_ancestor_chain_from fuel index (i + 1) parent);
    simpl; [|done|done].
  intros [= <-]. eauto.
Qed.

(** The chain that [dump_ancestor_chain] prints, when it returns, starts
    with the line of the node itself; its lines are numbered from 0 on,
    every line but the last is headed by the pointer that the next line
    is about, and the last line is headed <root> or <unknown>. *)
Theorem chain_is_linked (fuel : nat) (index : gmap Z Object) (i : Z)
    (o : Object) (ls : list Out) :
  dump_ancestor_chain_from fuel index i o = Ok ls →
  linked i ls ∧ ∃ head rest, ls = chain_line i head o :: rest.
Proof.
  intros H. split; [|by eapply chain_head].
  revert i o ls H. induction fuel as [|fuel IH]; intros i o ls; simpl;
    [done|].
  unfold chain_step.
  destruct (decide (m_type_ref o = ROOT)).
  { intros [= <-]. apply linked_last. by left. }
  destruct (m_parent o) as [p|].
  2: { intros [= <-]. apply linked_last. by right. }
  destruct (index !! p) as [parent|]; [|done]. simpl.
  destruct (dump_ancestor_chain_from fuel index (i + 1) parent) as [ls'| |]
    eqn:Hd; simpl; [|done|done].
  intros [= <-].
  destruct (chain_head _ _ _ _ _ Hd) as (head & rest & ->).
  unfold chain_line at 1. apply linked_next. by apply (IH _ parent).
Qed.

Lemma chain_is_linked_witness :
  linked 0 [OutChain 0 (HeadParent 1) "x" (Some 3) 2;
            OutChain 1 HeadRoot "main" None 1]
  ∧ ∃ head rest,
      [OutChain 0 (HeadParent 1) "x" (Some 3) 2;
       OutChain 1 HeadRoot "main" None 1]
      = chain_line 0 head looped_field :: rest.
Proof.
  apply (chain_is_linked 2 looped_index 0 looped_field). reflexivity.
Defined.


(** ** The search of a field *)

Lemma scan_fields_Some h dt byte_offset n k :
  scan_fields h dt byte_offset n = Some k →
  0 ≤ k < Z.of_nat n
  ∧ jl_field_offset h dt k ≤ byte_offset
  ∧ ∀ j, k < j < Z.of_nat n → byte_offset < jl_field_offset h dt j.
Proof.
  induction n as [|n IH]; simpl scan_fields; [done|].
  destruct (Z.ltb_spec byte_offset (jl_field_offset h dt (Z.of_nat n)))
    as [Hlt|Hge].
  - intros Hk. destruct (IH Hk) as (Hr & Hoff & Habove).
    split; [lia|]. split; [done|].
    intros j Hj. destruct (decide (j = Z.of_nat n)) as [->|Hne];
      [done | apply Habove; lia].
  - intros [= <-]. split; [lia|]. split; [done|]. intros j Hj. lia.
Qed.

Lemma scan_fields_None h dt byte_offset n :
  scan_fields h dt byte_offset n = None →
  ∀ j, 0 ≤ j < Z.of_nat n → byte_offset < jl_field_offset h dt j.
Proof.
  induction n as [|n IH]; simpl scan_fields; [intros _ j Hj; lia|].
  destruct (Z.ltb_spec byte_offset (jl_field_offset h dt (Z.of_nat n)))
    as [Hlt|Hge]; [|done].
  intros Hn j Hj. destruct (decide (j = Z.of_nat n)) as [->|Hne];
    [done | apply (IH Hn); lia].
Qed.

(** The backward scan of [gc_record_object_edge], over a type of [n]
    fields: it stops at the last field whose offset is not above
    [byte_offset], and it runs below the first field (where the [assert]
    fails) exactly when every offset is above [byte_offset]. *)
Theorem scan_fields_last_not_above (h : Host) (dt byte_offset : Z) (n : nat) :
  match scan_fields h dt byte_offset n with
  | Some k =>
      0 ≤ k < Z.of_nat n
      ∧ jl_field_offset h dt k ≤ byte_offset
      ∧ ∀ j, k < j < Z.of_nat n → byte_offset < jl_field_offset h dt j
  | None =>
      ∀ j, 0 ≤ j < Z.of_nat n → byte_offset < jl_field_offset h dt j
  end.
Proof.
  destruct (scan_fields h dt byte_offset n) as [k|] eqn:Hscan.
  - by apply scan_fields_Some.
  - by apply scan_fields_None.
Qed.

Lemma resolve_field_nested h fuel :
  ∀ to data byte_offset dt num_levels field_index0 ss k name err,
    0 < num_levels → num_levels + Z.of_nat fuel ≤ 2 ^ 32 →
    resolve_field h fuel to data byte_offset dt num_levels field_index0 ss
    = Ok (k, name, err) →
    k = field_index0.
Proof.
  induction fuel as [|fuel IH];
    intros to data bo dt nl fi0 ss k name err Hnl Hfuel; simpl; [done|].
  destruct (scan_fields h dt bo (Z.to_nat (jl_datatype_nfields h dt)))
    as [fi|]; [|done].
  destruct (Z.eqb_spec nl 0) as [|_]; [lia|].
  destruct (jl_field_isptr h dt fi); [by intros [= <- _ _]|].
  destruct (jl_stored_inline h (jl_field_type h dt fi));
    [|by intros [= <- _ _]].
  destruct fuel as [|fuel']; [done|].
  apply IH; unfold to_uint32; rewrite Z.mod_small; lia.
Qed.

(** The position that [gc_record_object_edge] records for a field edge,
    [field_index0], is the one that the first scan finds, over the fields
    of the object [from] itself: the last field whose offset is not above
    the offset of the slot. It is not overwritten when the loop goes down
    into structs stored inline, at any depth below the 2^32 levels that
    the counter of levels can count. (No upper bound is checked: the slot
    need not lie within that field.) *)
Theorem resolve_field_position (h : Host) (fuel : nat)
    (to data byte_offset dt init : Z) (ss : string)
    (k : Z) (name : string) (err : bool) :
  Z.of_nat fuel ≤ 2 ^ 32 →
  resolve_field h fuel to data byte_offset dt 0 init ss = Ok (k, name, err) →
  scan_fields h dt byte_offset (Z.to_nat (jl_datatype_nfields h dt)) = Some k
  ∧ jl_field_offset h dt k ≤ byte_offset
  ∧ ∀ j, k < j < jl_datatype_nfields h dt →
         byte_offset < jl_field_offset h dt j.
Proof.
  intros Hfuel Hres.
  assert (Hscan : scan_fields h dt byte_offset
                    (Z.to_nat (jl_datatype_nfields h dt)) = Some k).
  { destruct fuel as [|fuel]; simpl in Hres; [done|].
    destruct (scan_fields h dt byte_offset
                (Z.to_nat (jl_datatype_nfields h dt))) as [fi|]; [|done].
    change (0 =? 0) with true in Hres. cbv iota in Hres.
    destruct (jl_field_isptr h dt fi); [by injection Hres as -> _ _|].
    destruct (jl_stored_inline h (jl_field_type h dt fi));
      [|by injection Hres as -> _ _].
    apply resolve_field_nested in Hres; [by subst | |].
    - unfold to_uint32. rewrite Z.mod_small; lia.
    - unfold to_uint32. rewrite Z.mod_small; lia. }
  split; [done|].
  destruct (scan_fields_Some h dt byte_offset _ k Hscan)
    as (Hk & Hoff & Habove).
  split; [done|]. intros j Hj. apply Habove. lia.
Qed.

(** The slot 9 of the object 1 lies in the field [x] (index 0) of its
    field [inner] (index 1): the position recorded is 1. *)
Lemma resolve_field_position_witness :
  resolve_field example_nested_host 5 7 1 8 100 0 (-1) ""
  = Ok (1, "inner.x"%string, false)
  ∧ scan_fields example_nested_host 100 8
      (Z.to_nat (jl_datatype_nfields example_nested_host 100)) = Some 1
  ∧ jl_field_offset example_nested_host 100 1 ≤ 8
  ∧ ∀ j, 1 < j < jl_datatype_nfields example_nested_host 100 →
         8 < jl_field_offset example_nested_host 100 j.
Proof.
  split; [vm_compute; reflexivity|].
  apply (resolve_field_position example_nested_host 5 7 1 8 100 (-1) ""
           1 "inner.x" false); [lia | vm_compute; reflexivity].
Defined.


(** ** A session from end to end *)

Lemma recorder_ok_trace_start s :
  recorder_ok (recorder s) → recorder_ok (recorder (trace_start s)).
Proof. done. Qed.

(** A target registered with [jl_gc_addptr] and reached as a binding of
    a module that is a root: from the idle state without other targets,
    the session prints the registration, the list of the targets, the
    target as found with its chain (the binding of the module, then the
    root), and that all targets were detected; the watch set is empty
    afterwards. *)
Theorem found_through_binding (h : Host) (fuel : nat)
    (autos : list (list Callback)) (s : State) (A X : Z)
    (name field : string) :
  recorder_ok (recorder s) → g_recording s = false → g_targets s = ∅ →
  A ≠ 0 → A ≠ X → (2 ≤ fuel)%nat →
  ∃ s', jl_gc_trace h fuel autos [RecordRoot A name; RecordModule A X field]
          (jl_gc_addptr X s) = Ok s'
        ∧ trace s'
          = trace s
            ++ [OutAddPtr X; OutChecking [X]; OutRunning;
                OutTargetFound X;
                OutChain 0 (HeadParent A) field None X;
                OutChain 1 HeadRoot name None A;
                OutBlank;
                OutExecuted; OutAllDetected; OutDone]
        ∧ g_targets s' = ∅.
Proof.
  intros Hok Hidle Hempty HA HAX Hfuel.
  set (sa := jl_gc_addptr X s).
  assert (Hta : g_targets sa = {[X]}).
  { unfold sa, jl_gc_addptr. fields. rewrite Hempty.
    apply union_empty_r_L. }
  assert (HXin : X ∈ g_targets sa)
    by (rewrite Hta; by apply elem_of_singleton_2).
  assert (HAout : A ∉ g_targets sa)
    by (rewrite Hta; by intros ?%elem_of_singleton).
  unfold jl_gc_trace.
  rewrite decide_False
    by (intros E; rewrite E in HXin; by apply not_elem_of_empty in HXin).
  cbv zeta.
  destruct (warm_up_idle h fuel autos (trace_reset sa) Hidle)
    as (s1 & -> & Hi1 & Ht1 & Hr1 & Htr1 & _ & Hok1).
  cbn [res_bind].
  set (s2 := trace_start s1).
  assert (Hok2 : recorder_ok (recorder s2)) by (by apply Hok1).
  assert (Hi2 : g_index s2 = ∅) by (unfold s2, trace_start; by fields).
  assert (Ht2 : g_targets s2 = g_targets sa)
    by (unfold s2, trace_start; by fields).
  assert (Htr2 : trace s2
                 = trace s ++ [OutAddPtr X; OutChecking [X]; OutRunning]).
  { unfold s2, trace_start. fields. rewrite Htr1. unfold trace_reset.
    fields. rewrite Hta, elements_singleton. unfold sa, jl_gc_addptr.
    fields. by rewrite <- !app_assoc. }
  assert (Hr2 : g_recording s2 = true) by reflexivity.
  clearbody s2.
  (* the root *)
  destruct (report_returns h fuel (RecordRoot A name) A s2
              (0, ""%string, false) [] Hr2 eq_refl)
    as (s3 & ls3 & E3 & Has3).
  { simpl. by apply Z.eqb_neq. }
  { by rewrite Hi2, lookup_empty. }
  { done. }
  { done. }
  { intros _ Hin. rewrite Ht2 in Hin. done. }
  destruct Has3 as (Hi3 & _ & Hr3 & Hok3 & _ & _ & Htr3 & Ht3).
  rewrite (bool_decide_eq_false_2 (A ∈ g_targets s2)) in Htr3, Ht3
    by (by rewrite Ht2).
  simpl in Hi3, Htr3, Ht3. rewrite !app_nil_r in Htr3.
  set (nodeA := {| m_pointer := A; m_parent := None; m_type_ref := ROOT;
                   m_name := name; m_index := 0 |}) in *.
  (* the binding *)
  assert (Hparent : parent_of (RecordModule A X field) X (g_index s3)
                    = Some A).
  { unfold parent_of. simpl. rewrite decide_True; [done|].
    right. rewrite Hi3, Hi2, lookup_insert_eq. eauto. }
  set (nodeX := {| m_pointer := X; m_parent := Some A;
                   m_type_ref := MODULE_BINDING; m_name := field;
                   m_index := 0 |}).
  destruct (report_returns h fuel (RecordModule A X field) X s3
              (0, ""%string, false)
              [OutChain 0 (HeadParent A) field None X;
               OutChain 1 HeadRoot name None A] Hr3 eq_refl eq_refl)
    as (s4 & ls4 & E4 & Has4).
  { rewrite Hi3, Hi2, lookup_insert_ne by done. apply lookup_empty. }
  { done. }
  { done. }
  { intros _ _. rewrite Hparent. simpl new_node. fold nodeX.
    destruct fuel as [|[|fuel]]; [lia | lia |].
    unfold dump_ancestor_chain. cbn [dump_ancestor_chain_from].
    rewrite (chain_step_parent _ _ _ A nodeA); [|done|done|].
    2: { rewrite lookup_insert_ne by done.
         by rewrite Hi3, Hi2, lookup_insert_eq. }
    cbn [res_bind fst snd]. by rewrite chain_step_root. }
  destruct Has4 as (Hi4 & _ & _ & _ & _ & _ & Htr4 & Ht4).
  assert (Hmiss : parent_missing (RecordModule A X field) X (g_index s3)
                  = false).
  { unfold parent_missing. simpl. apply bool_decide_eq_false_2.
    intros Hn. apply Hn. right. rewrite Hi3, Hi2, lookup_insert_eq. eauto. }
  rewrite Hmiss in Htr4.
  rewrite (bool_decide_eq_true_2 (X ∈ g_targets s3)) in Htr4, Ht4
    by (by rewrite Ht3, Ht2).
  simpl in Htr4, Ht4.
  assert (Ht4' : g_targets s4 = ∅).
  { rewrite Ht4, Ht3, Ht2, Hta. apply difference_diag_L. }
  (* the collection and the end *)
  cbn [jl_gc_collect]. rewrite E3. cbn [res_bind]. rewrite E4.
  cbn [res_bind]. eexists. split; [reflexivity|].
  split; [|reflexivity].
  unfold trace_end. cbv zeta. fields. rewrite decide_True by done. fields.
  rewrite Htr4, Htr3, Htr2. rewrite <- !app_assoc. reflexivity.
Qed.

Lemma found_through_binding_witness :
  ∃ s', jl_gc_trace example_host 5 example_autos
          [RecordRoot 1 "main"; RecordModule 1 7 "x"]
          (jl_gc_addptr 7 (set_targets (λ _, ∅) example_idle)) = Ok s'
        ∧ trace s'
          = trace (set_targets (λ _, ∅) example_idle)
            ++ [OutAddPtr 7; OutChecking [7]; OutRunning;
                OutTargetFound 7;
                OutChain 0 (HeadParent 1) "x" None 7;
                OutChain 1 HeadRoot "main" None 1;
                OutBlank;
                OutExecuted; OutAllDetected; OutDone]
        ∧ g_targets s' = ∅.
Proof.
  apply (found_through_binding example_host 5 example_autos
           (set_targets (λ _, ∅) example_idle) 1 7 "main" "x").
  - exact recorder_ok_example_idle.
  - reflexivity.
  - reflexivity.
  - lia.
  - lia.
  - lia.
Defined.


(** ** A target that is registered too late *)

Lemma callback_known_target h fuel cb s s' p :
  recorder_ok (recorder s) → callback h fuel cb s = Ok s' →
  is_Some (g_index s !! p) → p ∈ g_targets s → p ∈ g_targets s'.
Proof.
  intros Hok Hcb [n Hn] Hp.
  destruct (callback_targets h fuel cb s s' p Hok Hcb Hp)
    as [Hin | [Hrep _]]; [done|].
  destruct (record_known h fuel cb p n s Hrep Hn)
    as (s'' & E & _ & Ht & _).
  rewrite Hcb in E. injection E as <-. by rewrite Ht.
Qed.

(** The watch set is consulted only when a node is created: an identity
    that has its node already when it is registered with [jl_gc_addptr]
    is never reported by the rest of the collection, and is still in the
    watch set when the collection returns. *)
Theorem late_target_is_missed (h : Host) (fuel : nat)
    (calls : list Callback) (s s' : State) (p : Z) :
  recorder_ok (recorder s) → is_Some (g_index s !! p) →
  jl_gc_collect h fuel calls (jl_gc_addptr p s) = Ok s' →
  reports p (trace s') = reports p (trace s) ∧ p ∈ g_targets s'.
Proof.
  intros Hok Hp Hcalls.
  assert (Hok' : recorder_ok (recorder (jl_gc_addptr p s))) by done.
  split.
  - destruct (jl_gc_collect_effect h fuel calls _ s' Hok' Hcalls)
      as (_ & _ & _ & _ & _ & Hsame & _).
    rewrite (Hsame p) by done. unfold jl_gc_addptr. fields.
    rewrite reports_app. simpl. lia.
  - assert (Hin : p ∈ g_targets (jl_gc_addptr p s)).
    { unfold jl_gc_addptr. fields. apply elem_of_union. left.
      by apply elem_of_singleton_2. }
    assert (Hp' : is_Some (g_index (jl_gc_addptr p s) !! p)) by done.
    revert Hok' Hcalls Hin Hp'. generalize (jl_gc_addptr p s).
    induction calls as [|cb calls IH]; intros s0 Hok0; simpl.
    + by intros [= <-].
    + destruct (callback h fuel cb s0) as [s1| |] eqn:Hcb; cbn [res_bind];
        [|done|done].
      intros Hrest Hin [n Hn].
      destruct (callback_effect h fuel cb s0 s1 Hok0 Hcb)
        as (Hok1 & _ & _ & Hkeep & _).
      apply (IH s1 Hok1 Hrest).
      * apply (callback_known_target h fuel cb s0 s1 p Hok0 Hcb); eauto.
      * eauto.
Qed.

Lemma late_target_is_missed_witness :
  ∃ s', jl_gc_collect example_host 5 [RecordModule 1 1 "self"]
          (jl_gc_addptr 1 example_rooted) = Ok s'
        ∧ reports 1 (trace s') = reports 1 (trace example_rooted)
        ∧ 1 ∈ g_targets s'.
Proof.
  eexists. split; [vm_compute; reflexivity|].
  apply (late_target_is_missed example_host 5 [RecordModule 1 1 "self"]
           example_rooted _ 1).
  - exact recorder_ok_example_rooted.
  - vm_compute. eauto.
  - vm_compute. reflexivity.
Defined.

(** ** The name of a global reference *)

Lemma substring_all n s :
  (String.length s ≤ n)%nat → substring 0 n s = s.
Proof.
  revert n. induction s as [|c s IH]; intros n Hn.
  - by destruct n.
  - destruct n as [|n]; simpl in *; [lia|]. rewrite IH; [done | lia].
Qed.

(** [gc_record_module_edge_globalref] records a new, non-null identity as
    a binding of the module under the name followed by "_globalref", cut
    to the 511 characters that fit its buffer; a name of 501 characters
    at most is kept whole. *)
Theorem globalref_name (h : Host) (fuel : nat) (from to : Z)
    (name : string) (s s' : State) :
  recorder_ok (recorder s) → g_recording s = true → to ≠ 0 →
  g_index s !! to = None →
  callback h fuel (RecordModuleGlobalref from to name) s = Ok s' →
  ∃ node, g_index s' !! to = Some node
          ∧ m_type_ref node = MODULE_BINDING
          ∧ m_name node = substring 0 511 (name +:+ "_globalref")
          ∧ (String.length (m_name node) ≤ 511)%nat
          ∧ ((String.length name ≤ 501)%nat →
             m_name node = name +:+ "_globalref").
Proof.
  intros Hok Hrec Hto Hnew Hcb.
  assert (Hrep0 : reported (RecordModuleGlobalref from to name) = Some to)
    by reflexivity.
  assert (Hnull : null_report (RecordModuleGlobalref from to name) = false)
    by (simpl; by apply Z.eqb_neq).
  destruct (callback_report h fuel _ s s' Hok Hcb)
    as [(Hi & _) | (to' & r & ls & chain & _ & Hrep & _ & _ & _ & Has)].
  - exfalso.
    destruct (record_unresolved h fuel _ to s s' Hrec Hrep0 Hnew Hcb)
      as [r Hres].
    destruct (record_new h fuel _ to s r Hrec Hrep0 Hnull Hnew Hok Hres)
      as (s1 & ls & E & _ & Hi1 & _).
    rewrite E in Hcb. simpl in Hcb. apply target_found_Ok in Hcb as (Hi' & _).
    assert (is_Some (g_index s !! to)) as [x Hx]; [|congruence].
    rewrite <- Hi, Hi', Hi1, lookup_insert_eq. eauto.
  - simpl in Hrep. injection Hrep as <-. destruct Has as (Hi & _).
    eexists. split; [by rewrite Hi, lookup_insert_eq|]. simpl.
    split; [done|]. split; [done|]. split; [apply length_substring_le|].
    intros Hlen. apply substring_all.
    assert (Happ : ∀ a b, String.length (a +:+ b)
                          = (String.length a + String.length b)%nat).
    { intros a b. induction a as [|c a IH]; simpl; [done | by rewrite IH]. }
    rewrite Happ. simpl. lia.
Qed.

Lemma globalref_name_witness :
  ∃ s', callback example_host 5 (RecordModuleGlobalref 1 7 "x")
          example_rooted = Ok s'
        ∧ ∃ node, g_index s' !! 7 = Some node
                  ∧ m_type_ref node = MODULE_BINDING
                  ∧ m_name node = substring 0 511 ("x" +:+ "_globalref")
                  ∧ (String.length (m_name node) ≤ 511)%nat
                  ∧ ((String.length "x" ≤ 501)%nat →
                     m_name node = "x" +:+ "_globalref").
Proof.
  eexists. split; [vm_compute; reflexivity|].
  apply (globalref_name example_host 5 1 7 "x" example_rooted).
  - exact recorder_ok_example_rooted.
  - reflexivity.
  - lia.
  - reflexivity.
  - vm_compute. reflexivity.
Defined.


Lemma reported_at_most_once_witness :
  (reports 7 (trace (force example_session
                       (jl_gc_collect example_host 5 example_calls
                          example_session)))
   ≤ reports 7 (trace example_session) + unseen 7 (g_index example_session))%nat
  ∧ (unseen 7 (g_index example_session) ≤ 1)%nat.
Proof.
  apply (reported_at_most_once example_host 5 example_calls example_session).
  - exact recorder_ok_example_session.
  - vm_compute. reflexivity.
Defined.

End GcTracingFacts.
